(** * Compartmental epidemic model (model_seirx.py): rate matrices,
      observables and posterior post-processing

    A shallow embedding of [Model] and [Model2] of [src/model_seirx.py].

    Number model.  The tensors of the source hold IEEE floating-point
    numbers.  A [scalar] is either a finite value, kept as an exact rational,
    or one of the three special values the source can produce by dividing by
    zero ([inf], [-inf], [nan]).  Rounding, overflow and the sign of zero are
    outside the model: every statement below is about exact arithmetic on the
    finite values.  [get_observable] alone, which takes logarithms and
    square roots, is embedded over the real numbers.  The eigenvalues of a
    rate matrix are in general irrational: the spectrum of a matrix is a
    list of real numbers, and a statement about all the eigenvalues is made
    over the reals.

    Errors.  A Python exception is a value [Raise e] of the [result] type;
    dictionary lookups raise [KeyError], sequence indexing raises
    [IndexError], a failed tuple unpacking raises [ValueError], a failed
    broadcast raises [ShapeError], [np.polyfit] raises [TypeError] on no
    point and [LinAlgError] when it cannot solve, and a Python division by
    zero raises [ZeroDivisionError].

    The file has three parts: the embedding of the source, the vocabulary
    and the concrete inputs of the properties, and the properties. *)

From Stdlib Require Import QArith ZArith Lia Sorted Reals Psatz Qreals.
From stdpp Require Import gmap strings list.

(* ================================================================== *)
(** ** Scalars: exact rationals with the IEEE special values *)

Inductive scalar : Type :=
| Fin (q : Q)
| PInf
| NInf
| NaN.

Declare Scope scalar_scope.
Delimit Scope scalar_scope with S.
Bind Scope scalar_scope with scalar.

Definition fopp (x : scalar) : scalar :=
  match x with
  | Fin q => Fin (- q)
  | PInf => NInf
  | NInf => PInf
  | NaN => NaN
  end.

Definition fadd (x y : scalar) : scalar :=
  match x, y with
  | NaN, _ | _, NaN => NaN
  | Fin a, Fin b => Fin (a + b)
  | PInf, NInf | NInf, PInf => NaN
  | PInf, _ | _, PInf => PInf
  | NInf, _ | _, NInf => NInf
  end.

Definition fsub (x y : scalar) : scalar := fadd x (fopp y).

(** The infinity whose sign is that of the rational [q] times the sign
    [neg] ([true] for a negative factor); [nan] when [q] is zero. *)
Definition inf_times (neg : bool) (q : Q) : scalar :=
  if Qeq_bool q 0 then NaN
  else if xorb neg (Qle_bool q 0) then NInf else PInf.

Definition fmul (x y : scalar) : scalar :=
  match x, y with
  | NaN, _ | _, NaN => NaN
  | Fin a, Fin b => Fin (a * b)
  | PInf, Fin b | Fin b, PInf => inf_times false b
  | NInf, Fin b | Fin b, NInf => inf_times true b
  | PInf, PInf | NInf, NInf => PInf
  | PInf, NInf | NInf, PInf => NInf
  end.

Definition fdiv (x y : scalar) : scalar :=
  match x, y with
  | NaN, _ | _, NaN => NaN
  | Fin a, Fin b =>
      if Qeq_bool b 0 then inf_times false a else Fin (a / b)
  | Fin _, PInf | Fin _, NInf => Fin 0
  | PInf, Fin b => if Qle_bool 0 b then PInf else NInf
  | NInf, Fin b => if Qle_bool 0 b then NInf else PInf
  | PInf, PInf | PInf, NInf | NInf, PInf | NInf, NInf => NaN
  end.

(** IEEE comparisons: anything compared with [nan] is [false]. *)
Definition fltb (x y : scalar) : bool :=
  match x, y with
  | NaN, _ | _, NaN => false
  | Fin a, Fin b => negb (Qle_bool b a)
  | NInf, NInf | PInf, _ | _, NInf => false
  | NInf, _ | _, PInf => true
  end.

Definition fleb (x y : scalar) : bool :=
  match x, y with
  | NaN, _ | _, NaN => false
  | Fin a, Fin b => Qle_bool a b
  | NInf, _ | _, PInf => true
  | PInf, _ | _, NInf => false
  end.

Definition feqb (x y : scalar) : bool :=
  match x, y with
  | Fin a, Fin b => Qeq_bool a b
  | PInf, PInf | NInf, NInf => true
  | _, _ => false
  end.

Definition fgtb (x y : scalar) : bool := fltb y x.

Definition bool_to_Q (b : bool) : Q := if b then 1 else 0.

(** [torch.sign]: computed as [(0 < x) - (x < 0)], so it is [0] at zero
    (and at [nan], where both comparisons fail). *)
Definition fsign (x : scalar) : scalar :=
  Fin (bool_to_Q (fltb (Fin 0) x) - bool_to_Q (fltb x (Fin 0))).

Definition is_nan (x : scalar) : bool :=
  match x with NaN => true | _ => false end.

Notation "x + y" := (fadd x y) : scalar_scope.
Notation "x - y" := (fsub x y) : scalar_scope.
Notation "x * y" := (fmul x y) : scalar_scope.
Notation "x / y" := (fdiv x y) : scalar_scope.
Notation "- x" := (fopp x) : scalar_scope.

(** [torch.sum] / [np.sum] of a vector. *)
Definition fsum (v : list scalar) : scalar := foldl fadd (Fin 0) v.

(* ================================================================== *)
(** ** Exceptions *)

Inductive exn : Type :=
| KeyError (key : string)
| IndexError
| ValueError
| ShapeError
| TypeError
| LinAlgError
| ZeroDivisionError.

Inductive result (A : Type) : Type :=
| Ok (a : A)
| Raise (e : exn).

Arguments Ok {A} a.
Arguments Raise {A} e.

#[global] Instance result_ret : MRet result := fun A a => Ok a.
#[global] Instance result_bind : MBind result := fun A B f m =>
  match m with
  | Ok a => f a
  | Raise e => Raise e
  end.
#[global] Instance result_fmap : FMap result := fun A B f m =>
  match m with
  | Ok a => Ok (f a)
  | Raise e => Raise e
  end.

(* ================================================================== *)
(** ** Dictionaries and sequences *)

(** [d[k]] on a Python dict. *)
Definition dict_get {V} (d : gmap string V) (k : string) : result V :=
  match d !! k with
  | Some v => Ok v
  | None => Raise (KeyError k)
  end.

(** Python index normalisation: a negative index counts from the end, and
    an index outside [-n, n) raises [IndexError]. *)
Definition norm_index (n : nat) (i : Z) : result nat :=
  let k := if (i <? 0)%Z then (i + Z.of_nat n)%Z else i in
  if ((0 <=? k) && (k <? Z.of_nat n))%Z then Ok (Z.to_nat k)
  else Raise IndexError.

(** [l[i]]. *)
Definition getitem {A} (l : list A) (i : Z) : result A :=
  k ← norm_index (length l) i;
  match l !! k with
  | Some x => Ok x
  | None => Raise IndexError
  end.

(** [l[i] = v]. *)
Definition setitem {A} (l : list A) (i : Z) (v : A) : result (list A) :=
  k ← norm_index (length l) i;
  Ok (<[k := v]> l).

Abbreviation matrix := (list (list scalar)).

(** [M[i, j]]. *)
Definition getitem2 (M : matrix) (i j : Z) : result scalar :=
  row ← getitem M i;
  getitem row j.

(** [M[i, j] = v]. *)
Definition setitem2 (M : matrix) (i j : Z) (v : scalar) : result matrix :=
  row ← getitem M i;
  row' ← setitem row j v;
  setitem M i row'.

(** [M[:, j]]. *)
Definition column (M : matrix) (j : Z) : result (list scalar) :=
  mapM (fun row => getitem row j) M.

(** [torch.zeros(n, m)]. *)
Definition zeros (n m : nat) : matrix := replicate n (replicate m (Fin 0)).

(** Shape test: [n] rows of [m] entries each. *)
Definition has_shape (n m : nat) (M : matrix) : Prop :=
  length M = n ∧ Forall (fun row => length row = m) M.

(** A parameter vector is a dict from names to scalars; a sample set is a
    dict from names to sequences of draws. *)
Abbreviation paramvec := (gmap string scalar).
Abbreviation sampleset := (gmap string (list scalar)).
Abbreviation observables := (scalar * scalar * scalar)%type.

(** The eigendecomposition [utils.eig.eig.apply] is not part of the sources
    at hand: the functions that call it take it as the parameter [eig],
    which maps a matrix to its eigenvalues and to the matrix whose columns
    are the eigenvectors, or raises. *)
Abbreviation eig_fn := (matrix → result (list scalar * matrix)).

(** A filter predicate maps the whole sample set to a mask with one
    boolean per draw; being a Python callable, it may raise. *)
Abbreviation predicate := (sampleset → result (list bool)).

(** A [for] loop that threads an accumulator and stops at the first
    exception. *)
Fixpoint foldlM {A B} (f : A → B → result A) (a : A) (l : list B)
  : result A :=
  match l with
  | [] => Ok a
  | x :: l' => a' ← f a x; foldlM f a' l'
  end.

(** A tuple of three observables read as a sequence. *)
Definition tuple_to_list (t : observables) : list scalar :=
  let '(a, b, c) := t in [a; b; c].

(** [zip] applied to the unpacked [rows], as a list: the transposition of
    a list of sequences, cut at the shortest one; no row at all gives no
    column at all. *)
Fixpoint zip_star {A} (rows : list (list A)) : list (list A) :=
  match rows with
  | [] => []
  | [r] => (fun x => [x]) <$> r
  | r :: rs => zip_with cons r (zip_star rs)
  end.

(** [a * b] on two boolean vectors: the elementwise conjunction, a vector
    of length one being broadcast against the other. *)
Definition mask_mul (a b : list bool) : result (list bool) :=
  if decide (length a = length b) then Ok (zip_with andb a b)
  else match a, b with
       | [x], _ => Ok (andb x <$> b)
       | _, [y] => Ok ((fun x => andb x y) <$> a)
       | _, _ => Raise ShapeError
       end.

(** The entries of [l] at the positions where [mask] is true. *)
Fixpoint select {A} (l : list A) (mask : list bool) : list A :=
  match l, mask with
  | x :: l', b :: mask' => if b then x :: select l' mask' else select l' mask'
  | _, _ => []
  end.

(** [l[mask]] with a boolean mask, which must be as long as [l]. *)
Definition getitem_mask {A} (l : list A) (mask : list bool)
  : result (list A) :=
  if decide (length mask = length l) then Ok (select l mask)
  else Raise IndexError.

(** [eigvecs[:,-1] * torch.sign(eigvecs[-1,-1])]: the last column, scaled
    by the sign of its own last entry. *)
Definition max_eigvecs (eigvecs : matrix) : result (list scalar) :=
  col ← column eigvecs (-1);
  e ← getitem2 eigvecs (-1) (-1);
  Ok ((fun x => x * fsign e)%S <$> (col : list scalar)).

(* ================================================================== *)
(** ** Methods shared by both classes *)

Section Methods.
Variable paramnames : list string.
Variable get_simobservable : paramvec → result observables.

(** [Model.unpack]. *)
Definition unpack (params : paramvec) : result (list scalar) :=
  mapM (dict_get params) paramnames.

(** [{name: samples[name][i] for name in self.paramnames}]. *)
Definition draw (samples : sampleset) (i : Z) : result paramvec :=
  foldlM (fun (d : paramvec) name =>
            s ← dict_get samples name;
            v ← getitem s i;
            Ok (<[name := v]> d))
         ∅ paramnames.

(** [Model.sample_observations]. *)
Definition sample_observations (samples : sampleset)
  : result (list (list scalar)) :=
  name0 ← getitem paramnames 0;
  s0 ← dict_get samples name0;
  let nsamples := length s0 in
  simobs ← mapM (fun i : nat =>
                   params ← draw samples (Z.of_nat i);
                   get_simobservable params)
                (seq 0 nsamples);
  Ok (zip_star (tuple_to_list <$> simobs)).

(** The first loop of [filter_samples]:
    [for key in filters_keys: idx = idx * filters_dict[key](samples)]. *)
Definition filter_loop (samples : sampleset)
    (filters_dict : gmap string predicate) (idx : list bool)
    (filters_keys : list string) : result (list bool) :=
  foldlM (fun idx key =>
            filter_fcn ← dict_get filters_dict key;
            mask ← filter_fcn samples;
            mask_mul idx mask)
         idx filters_keys.

(** The second loop of [filter_samples]:
    [for name in self.paramnames: new_samples[name] = samples[name][idx]],
    from the dict [new_samples]. *)
Definition select_loop (samples : sampleset) (idx : list bool)
    (new_samples : sampleset) (names : list string) : result sampleset :=
  foldlM (fun (new_samples : sampleset) name =>
            s ← dict_get samples name;
            v ← getitem_mask s idx;
            Ok (<[name := v]> new_samples))
         new_samples names.

(** [Model.filter_samples]. *)
Definition filter_samples (samples : sampleset)
    (filters_dict : gmap string predicate) (filters_keys : list string)
  : result sampleset :=
  name0 ← getitem paramnames 0;
  s0 ← dict_get samples name0;
  let idx := (fun v => fgtb v NInf) <$> s0 in
  idx ← filter_loop samples filters_dict idx filters_keys;
  select_loop samples idx ∅ paramnames.

End Methods.

(** The predicate dictionary of the command-line driver:
    ["low_infection_rate": lambda s: s["inf_rate"] < 0.5]. *)
Definition low_infection_rate (s : sampleset) : result (list bool) :=
  v ← dict_get s "inf_rate";
  Ok ((fun x => fltb x (Fin (1 # 2))) <$> (v : list scalar)).

Definition filters_dict : gmap string predicate :=
  {[ "low_infection_rate" := low_infection_rate ]}.

(* ================================================================== *)
(** ** class Model: the base variant *)

Module Model.

Definition paramnames : list string :=
  ["t_incub"; "inf_rate"; "surv_rate"; "t_dec"; "t_rec"].

Definition vecnames : gmap string Z :=
  list_to_map
    [("exposed", 0%Z); ("infectious_dec", 1%Z); ("infectious_rec", 2%Z);
     ("dec", 3%Z); ("rec", 4%Z)].

Definition obsnames : list string :=
  ["gradient"; "dec_by_rec"; "dec_by_infection"].

Definition nparams : nat := length paramnames.
Definition nobs : nat := length obsnames.

Definition construct_jac (params : paramvec) : result matrix :=
  l ← unpack paramnames params;
  match l with
  | [t_incub; inf_rate; surv_rate; t_dec; t_rec] =>
      let K_rate := zeros nparams nparams in
      K_rate ← setitem2 K_rate 0 0 (Fin (-1) / t_incub)%S;
      K_rate ← setitem2 K_rate 0 1 inf_rate;
      K_rate ← setitem2 K_rate 0 2 inf_rate;
      K_rate ← setitem2 K_rate 1 0 ((Fin 1 - surv_rate) / t_incub)%S;
      K_rate ← setitem2 K_rate 1 1 (Fin (-1) / t_dec)%S;
      K_rate ← setitem2 K_rate 2 0 (surv_rate / t_incub)%S;
      K_rate ← setitem2 K_rate 2 2 (Fin (-1) / t_rec)%S;
      K_rate ← setitem2 K_rate 3 1 (Fin 1 / t_dec)%S;
      K_rate ← setitem2 K_rate 4 2 (Fin 1 / t_rec)%S;
      Ok K_rate
  | _ => Raise ValueError
  end.

Section WithEig.
Variable eig : eig_fn.

Definition get_simobservable (params : paramvec) : result observables :=
  jac ← construct_jac params;
  '(eigvals, eigvecs) ← eig jac;
  max_eigvecs ← max_eigvecs eigvecs;
  gradient ← getitem eigvals (-1);
  i_dec ← dict_get vecnames "dec";
  v_dec ← getitem max_eigvecs i_dec;
  i_rec ← dict_get vecnames "rec";
  v_rec ← getitem max_eigvecs i_rec;
  let dec_by_rec := (v_dec / v_rec)%S in
  i_dec ← dict_get vecnames "dec";
  v_dec ← getitem max_eigvecs i_dec;
  i_irec ← dict_get vecnames "infectious_rec";
  v_irec ← getitem max_eigvecs i_irec;
  i_idec ← dict_get vecnames "infectious_dec";
  v_idec ← getitem max_eigvecs i_idec;
  let dec_by_infection := (v_dec / (v_irec + v_idec))%S in
  Ok (gradient, dec_by_rec, dec_by_infection).

End WithEig.

End Model.

(* ================================================================== *)
(** ** class Model2(Model): the extended variant *)

Module Model2.

Definition paramnames : list string :=
  ["t_incub"; "inf_rate_unconf"; "inf_rate_conf"; "surv_rate"; "t_conf";
   "t_dec_conf"; "t_rec_conf"; "t_dec_unconf"; "t_rec_unconf"].

Definition vecnames : gmap string Z :=
  list_to_map
    [("exposed", 0%Z); ("infectious_dec_unconf", 1%Z);
     ("infectious_rec_unconf", 2%Z); ("infectious_dec_conf", 3%Z);
     ("infectious_rec_conf", 4%Z); ("dec_conf", 5%Z); ("rec_conf", 6%Z)].

Definition obsnames : list string :=
  ["gradient"; "dec_by_rec"; "dec_by_infection"].

Definition nparams : nat := length paramnames.
Definition nobs : nat := length obsnames.

Definition construct_jac (params : paramvec) : result matrix :=
  l ← unpack paramnames params;
  match l with
  | [t_incub; inf_rate_unconf; inf_rate_conf; surv_rate; t_conf;
     t_dec_conf; t_rec_conf; t_dec_unconf; t_rec_unconf] =>
      let K_rate := zeros nparams nparams in
      K_rate ← setitem2 K_rate 0 0 (Fin (-1) / t_incub)%S;
      K_rate ← setitem2 K_rate 0 1 inf_rate_unconf;
      K_rate ← setitem2 K_rate 0 2 inf_rate_unconf;
      K_rate ← setitem2 K_rate 0 3 inf_rate_conf;
      K_rate ← setitem2 K_rate 0 4 inf_rate_conf;
      K_rate ← setitem2 K_rate 1 0 ((Fin 1 - surv_rate) / t_incub)%S;
      K_rate ← setitem2 K_rate 1 1
        (Fin (-1) / t_dec_unconf - Fin 1 / t_conf)%S;
      K_rate ← setitem2 K_rate 2 0 (surv_rate / t_incub)%S;
      K_rate ← setitem2 K_rate 2 2
        (Fin (-1) / t_rec_unconf - Fin 1 / t_conf)%S;
      K_rate ← setitem2 K_rate 3 1 (Fin 1 / t_conf)%S;
      K_rate ← setitem2 K_rate 3 3 (Fin (-1) / t_dec_conf)%S;
      K_rate ← setitem2 K_rate 4 2 (Fin 1 / t_conf)%S;
      K_rate ← setitem2 K_rate 4 4 (Fin (-1) / t_rec_conf)%S;
      K_rate ← setitem2 K_rate 5 3 (Fin 1 / t_dec_conf)%S;
      K_rate ← setitem2 K_rate 6 4 (Fin 1 / t_rec_conf)%S;
      Ok K_rate
  | _ => Raise ValueError
  end.

Section WithEig.
Variable eig : eig_fn.

Definition get_simobservable (params : paramvec) : result observables :=
  jac ← construct_jac params;
  '(eigvals, eigvecs) ← eig jac;
  max_eigvecs ← max_eigvecs eigvecs;
  gradient ← getitem eigvals (-1);
  i_dec ← dict_get vecnames "dec_conf";
  v_dec ← getitem max_eigvecs i_dec;
  i_rec ← dict_get vecnames "rec_conf";
  v_rec ← getitem max_eigvecs i_rec;
  let dec_by_rec := (v_dec / v_rec)%S in
  i_dec ← dict_get vecnames "dec_conf";
  v_dec ← getitem max_eigvecs i_dec;
  i_idec ← dict_get vecnames "infectious_dec_conf";
  v_idec ← getitem max_eigvecs i_idec;
  i_irec ← dict_get vecnames "infectious_rec_conf";
  v_irec ← getitem max_eigvecs i_irec;
  let dec_by_infection := (v_dec / (v_idec + v_irec))%S in
  Ok (gradient, dec_by_rec, dec_by_infection).

End WithEig.

End Model2.



(* ================================================================== *)
(** ** Empirical observables: [Model.get_observable] *)

(** [get_observable] takes logarithms and square roots, which leave the
    rationals: its embedding is over the real numbers, the values of the
    loaded array read as exact reals.  The special values are not
    represented: where numpy would produce [inf] or [nan] (the logarithm of
    a count that is not positive, a quotient by zero) the functions below
    follow the conventions of the real-number library instead, and the
    statements about them assume it away. *)

(** [np.sum], [np.mean] and [np.std] (the population standard deviation). *)
Definition rsum (l : list R) : R := foldr Rplus 0%R l.
Definition rmean (l : list R) : R := (rsum l / INR (length l))%R.
Definition rstd (l : list R) : R :=
  sqrt (rmean ((fun v => (v - rmean l) ^ 2)%R <$> l)).

(** [np.arange(n)]. *)
Definition arange (n : nat) : list R := INR <$> seq 0 n.

(** [a[start:]] with Python's reading of a negative or too large start. *)
Definition slice_from {A} (l : list A) (start : Z) : list A :=
  let n := Z.of_nat (length l) in
  let k := if (start <? 0)%Z then Z.max 0 (start + n) else Z.min start n in
  drop (Z.to_nat k) l.

(** [np.polyfit(x, y, 1)], from numpy's documentation: the coefficients
    (highest power first) of the line that minimises the sum of the squared
    errors, here as the solution of the normal equations, which is that line
    as soon as two abscissae differ; [TypeError] on an empty [x].  numpy
    divides the column of the abscissae by its norm before it solves: when
    every abscissa is zero, as for the single point of [np.arange(1)], the
    norm is zero, the column becomes [nan] and the solver raises
    [LinAlgError]. *)
Definition polyfit1 (x y : list R) : result (R * R) :=
  match x with
  | [] => Raise TypeError
  | _ =>
      if Req_EM_T (rsum (zip_with Rmult x x)) 0 then Raise LinAlgError else
      let n := INR (length x) in
      let sx := rsum x in
      let sy := rsum y in
      let sxx := rsum (zip_with Rmult x x) in
      let sxy := rsum (zip_with Rmult x y) in
      let gradient := ((n * sxy - sx * sy) / (n * sxx - sx * sx))%R in
      let offset := ((sy - gradient * sx) / n)%R in
      Ok (gradient, offset)
  end.

(** [Model.get_observable], from the array [data0] that [np.loadtxt] has
    read (reading the file is outside the model). *)
Definition get_observable (data0 : list (list R)) (day_offset : Z)
  : result ((R * R) * (R * R) * (R * R)) :=
  let data := slice_from data0 day_offset in
  ninfectious ← mapM (fun row : list R => getitem row (-3)) data;
  nrec ← mapM (fun row : list R => getitem row (-2)) data;
  ndec ← mapM (fun row : list R => getitem row (-1)) data;
  let ndays := length data in
  let x := arange ndays in
  let logy := ln <$> (ninfectious : list R) in
  '(gradient, offset) ← polyfit1 x logy;
  let logyfit := (fun xi => offset + gradient * xi)%R <$> x in
  if decide (length x = 2) then Raise ZeroDivisionError else
  let std_gradient :=
    sqrt (1 / IZR (Z.of_nat (length x) - 2)
          * rsum (zip_with (fun a b => (a - b) ^ 2) logy logyfit)
          / rsum ((fun xi => (xi - rmean x) ^ 2) <$> x))%R in
  let dec_by_rec_mean := rmean (zip_with Rdiv ndec nrec) in
  let dec_by_rec_std := rstd (zip_with Rdiv ndec nrec) in
  let dec_by_infection_mean := rmean (zip_with Rdiv ndec ninfectious) in
  let dec_by_infection_std := rstd (zip_with Rdiv ndec ninfectious) in
  Ok ((gradient, std_gradient),
      (dec_by_rec_mean, dec_by_rec_std),
      (dec_by_infection_mean, dec_by_infection_std)).


(* ================================================================== *)
(** * Vocabulary of the properties *)

(** ** Parameter vectors and rate matrices *)

(** A strictly positive, finite value. *)
Definition positive_finite (v : scalar) : Prop := ∃ q, v = Fin q ∧ (0 < q)%Q.

(** Every parameter named in [names] is present, finite and strictly
    positive. *)
Definition valid_params (names : list string) (params : paramvec) : Prop :=
  ∀ name, name ∈ names → ∃ v, params !! name = Some v ∧ positive_finite v.

(** The sum of every column of [K], column by column. *)
Definition column_sums (K : matrix) : result (list scalar) :=
  mapM (fun j : nat => c ← column K (Z.of_nat j); Ok (fsum c))
       (seq 0 (length K)).

(** [x == y] as the source would test it. *)
Definition feq (x y : scalar) : Prop := feqb x y = true.

(** An entry that is zero or [nan]. *)
Definition zero_or_nan (x : scalar) : Prop := x = NaN ∨ feq x (Fin 0).

(** [v] is the last column of [eigvecs], every entry multiplied by the
    sign of that column's last entry. *)
Definition rescaled_dominant (eigvecs : matrix) (v : list scalar) : Prop :=
  ∃ col e,
    Forall2 (fun row x => last row = Some x) eigvecs col ∧
    last col = Some e ∧
    v = (fun x => x * fsign e)%S <$> col.

(** ** Exact linear algebra on finite matrices *)

Definition to_vector (u : list Q) : list scalar := Fin <$> u.
Definition to_matrix (M : list (list Q)) : matrix := to_vector <$> M.

Definition dotQ (u v : list Q) : Q := foldr Qplus 0%Q (zip_with Qmult u v).

Definition mat_vec (M : list (list Q)) (u : list Q) : list Q :=
  (fun row => dotQ row u) <$> M.

(** [M u = l u] for a vector [u] that is not zero. *)
Definition eigenpair (M : list (list Q)) (l : Q) (u : list Q) : Prop :=
  length u = length M ∧
  Exists (fun x => ¬ (x == 0)%Q) u ∧
  Forall2 Qeq (mat_vec M u) (Qmult l <$> u).


(** The check [M u = l u], [u] not zero, as a boolean. *)
Definition eigenpair_b (M : list (list Q)) (l : Q) (u : list Q) : bool :=
  bool_decide (length u = length M) &&
  existsb (fun x => negb (Qeq_bool x 0)) u &&
  bool_decide (length (mat_vec M u) = length u) &&
  forallb (fun p => Qeq_bool p.1 p.2) (zip (mat_vec M u) (Qmult l <$> u)).

(** Column [j] of a matrix of rationals, when every row has one. *)
Definition columnQ (M : list (list Q)) (j : nat) : option (list Q) :=
  mapM (fun row : list Q => row !! j) M.

(** ** The spectrum, over the real numbers *)







(** ** Filtering and replaying, as the specification words them *)

(** The draws, by index, at which every mask of [masks] holds. *)
Definition kept_indices (n : nat) (masks : list (list bool)) : list nat :=
  filter (fun i => Forall (fun mask : list bool => mask !! i = Some true) masks)
         (seq 0 n).

(** The subsequence of [s] at the indices [idxs]. *)
Definition draws_at (s : list scalar) (idxs : list nat) : list scalar :=
  omap (fun i => s !! i) idxs.

(** A sample set of [n] draws per parameter of [names]. *)
Definition sample_set_of (names : list string) (n : nat)
    (samples : sampleset) : Prop :=
  ∀ name, name ∈ names → ∃ s, samples !! name = Some s ∧ length s = n.

(** The keys [keys] are known predicates of [filters_dict], whose masks on
    [samples] are [masks], one boolean per draw. *)
Definition known_predicates (filters_dict : gmap string predicate)
    (samples : sampleset) (n : nat)
    (keys : list string) (masks : list (list bool)) : Prop :=
  Forall2 (fun key mask => ∃ f, filters_dict !! key = Some f ∧
                                f samples = Ok mask ∧ length mask = n)
          keys masks.

(** The parameter vector of draw [i]: for every parameter name, the [i]-th
    entry of its sequence, and nothing else. *)
Definition is_draw (names : list string) (samples : sampleset) (i : nat)
    (params : paramvec) : Prop :=
  ∀ name,
    (name ∈ names →
     ∃ s v, samples !! name = Some s ∧ s !! i = Some v ∧
            params !! name = Some v) ∧
    (name ∉ names → params !! name = None).

(** ** The regression, as the specification words it *)

(** The sum of the squared errors of the line [a x + b]. *)
Definition squared_error (x y : list R) (a b : R) : R :=
  rsum (zip_with (fun xi yi => (yi - (a * xi + b)) ^ 2)%R x y).

(** The ordinary-least-squares slope and intercept of [y] against [x]. *)
Definition ols_slope (x y : list R) : R :=
  (rsum (zip_with (fun xi yi => (xi - rmean x) * (yi - rmean y)) x y)
   / rsum ((fun xi => (xi - rmean x) ^ 2) <$> x))%R.

Definition ols_intercept (x y : list R) : R :=
  (rmean y - ols_slope x y * rmean x)%R.

(** The standard error of the slope of a simple linear regression:
    [sqrt( (1/(n-2)) * sum(residual^2) / sum((x - mean(x))^2) )]. *)
Definition slope_std_error (x y : list R) : R :=
  sqrt (1 / (INR (length x) - 2)
        * squared_error x y (ols_slope x y) (ols_intercept x y)
        / rsum ((fun xi => (xi - rmean x) ^ 2) <$> x))%R.


(* ================================================================== *)
(** * Concrete inputs *)

(** A parameter vector of the base variant, inside the prior ranges, with
    its rate matrix, the eigenvalues of that matrix in ascending order and
    its eigenvectors (up to scale) as the columns of a matrix. *)
Definition base_params : paramvec :=
  list_to_map
    [("t_incub", Fin 5); ("inf_rate", Fin (4 # 5)); ("surv_rate", Fin (1 # 2));
     ("t_dec", Fin 5); ("t_rec", Fin 5)].

Definition base_K : list (list Q) :=
  [[-1 # 5; 4 # 5; 4 # 5; 0; 0];
   [1 # 10; -1 # 5; 0; 0; 0];
   [1 # 10; 0; -1 # 5; 0; 0];
   [0; 1 # 5; 0; 0; 0];
   [0; 0; 1 # 5; 0; 0]]%Q.

Definition base_vals : list Q := [-3 # 5; -1 # 5; 0; 0; 1 # 5]%Q.

Definition base_V : list (list Q) :=
  [[-12; 0; 0; 0; 4];
   [3; 1; 0; 0; 1];
   [3; -1; 0; 0; 1];
   [-1; -1; 1; 0; 1];
   [-1; 1; 0; 1; 1]]%Q.

Definition base_eigvals : list scalar := to_vector base_vals.
Definition base_eigvecs : matrix := to_matrix base_V.

(** The same for the extended variant. *)
Definition extended_params : paramvec :=
  list_to_map
    [("t_incub", Fin 5); ("inf_rate_unconf", Fin (4 # 5));
     ("inf_rate_conf", Fin (4 # 5)); ("surv_rate", Fin (1 # 2));
     ("t_conf", Fin 5); ("t_dec_conf", Fin 5); ("t_rec_conf", Fin 5);
     ("t_dec_unconf", Fin 5); ("t_rec_unconf", Fin 5)].

Definition extended_K : list (list Q) :=
  [[-1 # 5; 4 # 5; 4 # 5; 4 # 5; 4 # 5; 0; 0; 0; 0];
   [1 # 10; -10 # 25; 0; 0; 0; 0; 0; 0; 0];
   [1 # 10; 0; -10 # 25; 0; 0; 0; 0; 0; 0];
   [0; 1 # 5; 0; -1 # 5; 0; 0; 0; 0; 0];
   [0; 0; 1 # 5; 0; -1 # 5; 0; 0; 0; 0];
   [0; 0; 0; 1 # 5; 0; 0; 0; 0; 0];
   [0; 0; 0; 0; 1 # 5; 0; 0; 0; 0];
   [0; 0; 0; 0; 0; 0; 0; 0; 0];
   [0; 0; 0; 0; 0; 0; 0; 0; 0]]%Q.

Definition extended_vals : list Q :=
  [-3 # 5; -2 # 5; -2 # 5; -1 # 5; 0; 0; 0; 0; 1 # 5]%Q.

Definition extended_V : list (list Q) :=
  [[12; 0; 0; 0; 0; 0; 0; 0; 12];
   [-6; 2; 2; 0; 0; 0; 0; 0; 2];
   [-6; 2; -2; 0; 0; 0; 0; 0; 2];
   [3; -2; -2; 1; 0; 0; 0; 0; 1];
   [3; -2; 2; -1; 0; 0; 0; 0; 1];
   [-1; 1; 1; -1; 1; 0; 0; 0; 1];
   [-1; 1; -1; 1; 0; 1; 0; 0; 1];
   [0; 0; 0; 0; 0; 0; 1; 0; 0];
   [0; 0; 0; 0; 0; 0; 0; 1; 0]]%Q.

Definition extended_eigvals : list scalar := to_vector extended_vals.
Definition extended_eigvecs : matrix := to_matrix extended_V.

(** An [eig] that is right on the two example matrices: it answers by
    the size of its argument. *)
Definition example_eig : eig_fn := fun M =>
  if decide (length M = 5) then Ok (base_eigvals, base_eigvecs)
  else Ok (extended_eigvals, extended_eigvecs).

(** A parameter vector of the base variant in which nobody survives
    ([surv_rate] is 0), with its rate matrix and the eigendecomposition of
    that matrix (up to scale): the dominant eigenvector has no recovered
    mass, so its last coordinate is exactly zero. *)
Definition nosurvivor_params : paramvec :=
  list_to_map
    [("t_incub", Fin 5); ("inf_rate", Fin (4 # 5)); ("surv_rate", Fin 0);
     ("t_dec", Fin 5); ("t_rec", Fin 5)].

Definition nosurvivor_K : list (list Q) :=
  [[-1 # 5; 4 # 5; 4 # 5; 0; 0];
   [1 # 5; -1 # 5; 0; 0; 0];
   [0 # 5; 0; -1 # 5; 0; 0];
   [0; 1 # 5; 0; 0; 0];
   [0; 0; 1 # 5; 0; 0]]%Q.

Definition nosurvivor_vals : list Q := [-3 # 5; -1 # 5; 0; 0; 1 # 5]%Q.

Definition nosurvivor_V : list (list Q) :=
  [[-6; 0; 0; 0; 2];
   [3; -1; 0; 0; 1];
   [0; 1; 0; 0; 0];
   [-1; 1; 1; 0; 1];
   [0; -1; 0; 1; 0]]%Q.

Definition nosurvivor_eigvals : list scalar := to_vector nosurvivor_vals.
Definition nosurvivor_eigvecs : matrix := to_matrix nosurvivor_V.

Definition nosurvivor_eig : eig_fn := fun M =>
  if decide (length M = 5) then Ok (nosurvivor_eigvals, nosurvivor_eigvecs)
  else Ok (extended_eigvals, extended_eigvecs).




(** 1000 draws of the base variant: [inf_rate] runs over 0.100, 0.101, ...,
    1.099, so that exactly the first 400 draws have [inf_rate < 0.5]. *)
Definition samples_1000 : sampleset :=
  list_to_map
    [("t_incub", replicate 1000 (Fin 5));
     ("inf_rate",
      (fun i : nat => Fin (Z.of_nat (i + 100) # 1000)) <$> seq 0 1000);
     ("surv_rate", replicate 1000 (Fin (1 # 2)));
     ("t_dec", replicate 1000 (Fin 5));
     ("t_rec", (fun i : nat => Fin (Z.of_nat (i + 1) # 1)) <$> seq 0 1000)].

(** Three draws of the base variant. *)
Definition samples_3 : sampleset :=
  list_to_map
    [("t_incub", [Fin 5; Fin 6; Fin 7]);
     ("inf_rate", [Fin (4 # 5); Fin (1 # 4); Fin (1 # 3)]);
     ("surv_rate", [Fin (1 # 2); Fin (1 # 2); Fin (3 # 4)]);
     ("t_dec", [Fin 5; Fin 10; Fin 15]);
     ("t_rec", [Fin 5; Fin 20; Fin 25])].

(** A sample set of the base variant without any draw, as [filter_samples]
    returns it when no draw passes the filters. *)
Definition samples_0 : sampleset :=
  list_to_map
    [("t_incub", []); ("inf_rate", []); ("surv_rate", []); ("t_dec", []);
     ("t_rec", [])].

(** The single draw [base_params] as a sample set. *)
Definition samples_1 : sampleset := (fun v => [v]) <$> base_params.

(** Seven days of counts, 100 * 2^t infectious on day [t], in the seven
    columns that the loader keeps. *)
Definition data_7 : list (list R) :=
  (fun t : nat => [0; 0; 0; 0; 100 * 2 ^ t; 10 * INR (t + 1); INR (t + 1)]%R)
    <$> seq 0 7.


(* ================================================================== *)
(** * Properties *)

(** ** Scalars *)

Lemma fdiv_Fin a b : ¬ (b == 0)%Q → (Fin a / Fin b)%S = Fin (a / b).
Proof.
  intros Hb. unfold fdiv. destruct (Qeq_bool b 0) eqn:E; [|reflexivity].
  apply Qeq_bool_eq in E. contradiction.
Qed.

Lemma fltb_Fin a b : fltb (Fin a) (Fin b) = true ↔ (a < b)%Q.
Proof.
  cbn [fltb]. rewrite negb_true_iff. split.
  - intros E. apply Qnot_le_lt. intros H. apply Qle_bool_iff in H. congruence.
  - intros H. destruct (Qle_bool b a) eqn:E; [|reflexivity].
    apply Qle_bool_iff in E. lra.
Qed.

Lemma fleb_Fin a b : fleb (Fin a) (Fin b) = true ↔ (a <= b)%Q.
Proof. apply Qle_bool_iff. Qed.

Lemma feq_Fin a b : feq (Fin a) (Fin b) ↔ (a == b)%Q.
Proof. apply Qeq_bool_iff. Qed.

Lemma Qdiv_pos a b : (0 <= a)%Q → (0 < b)%Q → (0 <= a / b)%Q.
Proof.
  intros Ha Hb. unfold Qdiv. apply Qmult_le_0_compat; [assumption|].
  apply Qlt_le_weak, Qinv_lt_0_compat, Hb.
Qed.

Lemma Qdiv_spos a b : (0 < a)%Q → (0 < b)%Q → (0 < a / b)%Q.
Proof.
  intros Ha Hb. unfold Qdiv. apply Qmult_lt_0_compat; [assumption|].
  apply Qinv_lt_0_compat, Hb.
Qed.

Lemma Qdiv_neg a b : (a < 0)%Q → (0 < b)%Q → (a / b < 0)%Q.
Proof.
  intros Ha Hb. assert (H : (0 < (- a) / b)%Q) by (apply Qdiv_spos; lra).
  assert (E : ((- a) / b == - (a / b))%Q) by (field; lra).
  rewrite E in H. lra.
Qed.

(** ** Sequences *)

Lemma norm_index_nat n k : k < n → norm_index n (Z.of_nat k) = Ok k.
Proof.
  intros H. unfold norm_index.
  destruct (Z.ltb_spec (Z.of_nat k) 0); [lia|].
  destruct (Z.leb_spec 0 (Z.of_nat k)); [|lia].
  destruct (Z.ltb_spec (Z.of_nat k) (Z.of_nat n)); [|lia].
  cbn. by rewrite Nat2Z.id.
Qed.

Lemma norm_index_nat_ge n k : n ≤ k → norm_index n (Z.of_nat k) = Raise IndexError.
Proof.
  intros H. unfold norm_index.
  destruct (Z.ltb_spec (Z.of_nat k) 0); [lia|].
  destruct (Z.ltb_spec (Z.of_nat k) (Z.of_nat n)); [lia|].
  by rewrite andb_false_r.
Qed.

Lemma getitem_nat {A} (l : list A) k :
  getitem l (Z.of_nat k) =
  match l !! k with Some x => Ok x | None => Raise IndexError end.
Proof.
  unfold getitem. destruct (decide (k < length l)) as [H|H].
  - by rewrite norm_index_nat.
  - rewrite norm_index_nat_ge by lia. cbn.
    by rewrite (lookup_ge_None_2 l k) by lia.
Qed.

Lemma getitem_last {A} (l : list A) x :
  getitem (l ++ [x]) (-1) = Ok x.
Proof.
  unfold getitem, norm_index. rewrite length_app. cbn [length].
  replace (-1 <? 0)%Z with true by reflexivity.
  destruct (Z.leb_spec 0 (-1 + Z.of_nat (length l + 1))); [|lia].
  destruct (Z.ltb_spec (-1 + Z.of_nat (length l + 1)) (Z.of_nat (length l + 1))); [|lia].
  cbn. replace (Z.to_nat (-1 + Z.of_nat (length l + 1))) with (length l) by lia.
  by rewrite list_lookup_middle.
Qed.

Lemma mapM_Ok_inv {A B} (f : A → result B) l k :
  mapM f l = Ok k → Forall2 (fun x y => f x = Ok y) l k.
Proof.
  revert k. induction l as [|x l IH]; intros k; cbn.
  - intros H. injection H as <-. constructor.
  - destruct (f x) as [y|] eqn:E; cbn; [|discriminate].
    destruct (mapM f l) as [k'|] eqn:E'; cbn; [|discriminate].
    intros H. injection H as <-. constructor; auto.
Qed.

Lemma mapM_Ok {A B} (f : A → result B) l k :
  Forall2 (fun x y => f x = Ok y) l k → mapM f l = Ok k.
Proof.
  induction 1 as [|x y l k E _ IH]; cbn; [reflexivity|].
  rewrite E. cbn. rewrite IH. reflexivity.
Qed.

Lemma mapM_Ok_length {A B} (f : A → result B) l k :
  mapM f l = Ok k → length k = length l.
Proof. intros H. symmetry. eapply Forall2_length, mapM_Ok_inv, H. Qed.

Lemma dict_get_Ok {V} (d : gmap string V) k v :
  dict_get d k = Ok v ↔ d !! k = Some v.
Proof.
  unfold dict_get. destruct (d !! k); split; intros H; congruence.
Qed.

Lemma unpack_Ok names (params : paramvec) l :
  unpack names params = Ok l →
  Forall2 (fun n v => params !! n = Some v) names l.
Proof.
  intros H. apply mapM_Ok_inv in H.
  eapply Forall2_impl; [exact H|]. intros n v. apply dict_get_Ok.
Qed.

(** ** The rate matrices, entry by entry *)

Lemma Model_construct_jac_eq (params : paramvec)
    t_incub inf_rate surv_rate t_dec t_rec :
  params !! "t_incub" = Some t_incub →
  params !! "inf_rate" = Some inf_rate →
  params !! "surv_rate" = Some surv_rate →
  params !! "t_dec" = Some t_dec →
  params !! "t_rec" = Some t_rec →
  Model.construct_jac params = Ok
    [[(Fin (-1) / t_incub)%S; inf_rate; inf_rate; Fin 0; Fin 0];
     [((Fin 1 - surv_rate) / t_incub)%S; (Fin (-1) / t_dec)%S; Fin 0; Fin 0;
      Fin 0];
     [(surv_rate / t_incub)%S; Fin 0; (Fin (-1) / t_rec)%S; Fin 0; Fin 0];
     [Fin 0; (Fin 1 / t_dec)%S; Fin 0; Fin 0; Fin 0];
     [Fin 0; Fin 0; (Fin 1 / t_rec)%S; Fin 0; Fin 0]].
Proof.
  intros H1 H2 H3 H4 H5.
  unfold Model.construct_jac, unpack, Model.paramnames.
  cbn [mapM]. unfold dict_get. rewrite H1, H2, H3, H4, H5.
  reflexivity.
Qed.

Lemma Model2_construct_jac_eq (params : paramvec)
    t_incub inf_rate_unconf inf_rate_conf surv_rate t_conf
    t_dec_conf t_rec_conf t_dec_unconf t_rec_unconf :
  params !! "t_incub" = Some t_incub →
  params !! "inf_rate_unconf" = Some inf_rate_unconf →
  params !! "inf_rate_conf" = Some inf_rate_conf →
  params !! "surv_rate" = Some surv_rate →
  params !! "t_conf" = Some t_conf →
  params !! "t_dec_conf" = Some t_dec_conf →
  params !! "t_rec_conf" = Some t_rec_conf →
  params !! "t_dec_unconf" = Some t_dec_unconf →
  params !! "t_rec_unconf" = Some t_rec_unconf →
  Model2.construct_jac params = Ok
    [[(Fin (-1) / t_incub)%S; inf_rate_unconf; inf_rate_unconf;
      inf_rate_conf; inf_rate_conf; Fin 0; Fin 0; Fin 0; Fin 0];
     [((Fin 1 - surv_rate) / t_incub)%S;
      (Fin (-1) / t_dec_unconf - Fin 1 / t_conf)%S;
      Fin 0; Fin 0; Fin 0; Fin 0; Fin 0; Fin 0; Fin 0];
     [(surv_rate / t_incub)%S; Fin 0;
      (Fin (-1) / t_rec_unconf - Fin 1 / t_conf)%S;
      Fin 0; Fin 0; Fin 0; Fin 0; Fin 0; Fin 0];
     [Fin 0; (Fin 1 / t_conf)%S; Fin 0; (Fin (-1) / t_dec_conf)%S;
      Fin 0; Fin 0; Fin 0; Fin 0; Fin 0];
     [Fin 0; Fin 0; (Fin 1 / t_conf)%S; Fin 0; (Fin (-1) / t_rec_conf)%S;
      Fin 0; Fin 0; Fin 0; Fin 0];
     [Fin 0; Fin 0; Fin 0; (Fin 1 / t_dec_conf)%S; Fin 0;
      Fin 0; Fin 0; Fin 0; Fin 0];
     [Fin 0; Fin 0; Fin 0; Fin 0; (Fin 1 / t_rec_conf)%S;
      Fin 0; Fin 0; Fin 0; Fin 0];
     [Fin 0; Fin 0; Fin 0; Fin 0; Fin 0; Fin 0; Fin 0; Fin 0; Fin 0];
     [Fin 0; Fin 0; Fin 0; Fin 0; Fin 0; Fin 0; Fin 0; Fin 0; Fin 0]].
Proof.
  intros H1 H2 H3 H4 H5 H6 H7 H8 H9.
  unfold Model2.construct_jac, unpack, Model2.paramnames.
  cbn [mapM]. unfold dict_get.
  rewrite H1, H2, H3, H4, H5, H6, H7, H8, H9.
  reflexivity.
Qed.

(** The rate matrix is built exactly when every parameter is present. *)
Lemma Model_construct_jac_Ok (params : paramvec) K :
  Model.construct_jac params = Ok K →
  ∃ t_incub inf_rate surv_rate t_dec t_rec,
    params !! "t_incub" = Some t_incub ∧
    params !! "inf_rate" = Some inf_rate ∧
    params !! "surv_rate" = Some surv_rate ∧
    params !! "t_dec" = Some t_dec ∧
    params !! "t_rec" = Some t_rec.
Proof.
  unfold Model.construct_jac. intros H.
  destruct (unpack Model.paramnames params) as [l|] eqn:E; [|discriminate].
  apply unpack_Ok in E. unfold Model.paramnames in E.
  repeat (apply Forall2_cons_inv_l in E as (? & ? & ? & E & ->)).
  apply Forall2_nil_inv_l in E as ->. eauto 10.
Qed.

Lemma Model2_construct_jac_Ok (params : paramvec) K :
  Model2.construct_jac params = Ok K →
  ∃ t_incub inf_rate_unconf inf_rate_conf surv_rate t_conf
    t_dec_conf t_rec_conf t_dec_unconf t_rec_unconf,
    params !! "t_incub" = Some t_incub ∧
    params !! "inf_rate_unconf" = Some inf_rate_unconf ∧
    params !! "inf_rate_conf" = Some inf_rate_conf ∧
    params !! "surv_rate" = Some surv_rate ∧
    params !! "t_conf" = Some t_conf ∧
    params !! "t_dec_conf" = Some t_dec_conf ∧
    params !! "t_rec_conf" = Some t_rec_conf ∧
    params !! "t_dec_unconf" = Some t_dec_unconf ∧
    params !! "t_rec_unconf" = Some t_rec_unconf.
Proof.
  unfold Model2.construct_jac. intros H.
  destruct (unpack Model2.paramnames params) as [l|] eqn:E; [|discriminate].
  apply unpack_Ok in E. unfold Model2.paramnames in E.
  repeat (apply Forall2_cons_inv_l in E as (? & ? & ? & E & ->)).
  apply Forall2_nil_inv_l in E as ->. eauto 20.
Qed.

Lemma Model_construct_jac_shape (params : paramvec) K :
  Model.construct_jac params = Ok K → has_shape 5 5 K.
Proof.
  intros H. pose proof H as (? & ? & ? & ? & ? & H1 & H2 & H3 & H4 & H5)%Model_construct_jac_Ok.
  rewrite (Model_construct_jac_eq _ _ _ _ _ _ H1 H2 H3 H4 H5) in H.
  injection H as <-. split; [reflexivity|]. repeat constructor.
Qed.

Lemma Model2_construct_jac_shape (params : paramvec) K :
  Model2.construct_jac params = Ok K → has_shape 9 9 K.
Proof.
  intros H. pose proof H as (? & ? & ? & ? & ? & ? & ? & ? & ? & H1 & H2 & H3 & H4 & H5 & H6 & H7 & H8 & H9)%Model2_construct_jac_Ok.
  rewrite (Model2_construct_jac_eq _ _ _ _ _ _ _ _ _ _ H1 H2 H3 H4 H5 H6 H7 H8 H9) in H.
  injection H as <-. split; [reflexivity|]. repeat constructor.
Qed.

Ltac get_param Hv name q Hq Hpos :=
  let v := fresh "v" in
  let E := fresh "E" in
  destruct (Hv name) as (v & Hq & q & E & Hpos);
    [solve [repeat constructor]|]; subst v.

Ltac fin_entries :=
  cbn [fsub fadd fopp]; rewrite ?fdiv_Fin by lra.

Ltac sign_goal :=
  first [ apply fleb_Fin | apply fltb_Fin | apply feq_Fin ];
  first [ lra | reflexivity
        | apply Qdiv_pos; lra | apply Qdiv_spos; lra | apply Qdiv_neg; lra ].

Lemma Model_entry_signs (params : paramvec) s :
  valid_params Model.paramnames params →
  params !! "surv_rate" = Some s → fleb s (Fin 1) = true →
  ∃ K, Model.construct_jac params = Ok K ∧
    ∀ (i j : nat) x, getitem2 K (Z.of_nat i) (Z.of_nat j) = Ok x →
      (i ≠ j → fleb (Fin 0) x = true) ∧
      (i = j → i < 3 → fltb x (Fin 0) = true) ∧
      (i = j → 3 ≤ i → feq x (Fin 0)).
Proof.
  intros Hv Hs Hs1.
  get_param Hv "t_incub" ti H1 Hti.
  get_param Hv "inf_rate" r H2 Hr.
  get_param Hv "surv_rate" sr H3 Hsr.
  get_param Hv "t_dec" td H4 Htd.
  get_param Hv "t_rec" tr H5 Htr.
  rewrite H3 in Hs. injection Hs as <-. apply fleb_Fin in Hs1.
  rewrite (Model_construct_jac_eq _ _ _ _ _ _ H1 H2 H3 H4 H5).
  fin_entries. eexists. split; [reflexivity|].
  intros i j x. unfold getitem2. rewrite getitem_nat.
  do 5 (destruct i as [|i]; [cbn; rewrite getitem_nat;
    do 5 (destruct j as [|j]; [cbn; intros [= <-]; repeat split; intros; try lia; try sign_goal|]);
    cbn; discriminate|]).
  cbn. discriminate.
Qed.

Lemma Model2_entry_signs (params : paramvec) s :
  valid_params Model2.paramnames params →
  params !! "surv_rate" = Some s → fleb s (Fin 1) = true →
  ∃ K, Model2.construct_jac params = Ok K ∧
    ∀ (i j : nat) x, getitem2 K (Z.of_nat i) (Z.of_nat j) = Ok x →
      (i ≠ j → fleb (Fin 0) x = true) ∧
      (i = j → i < 5 → fltb x (Fin 0) = true) ∧
      (i = j → 5 ≤ i → feq x (Fin 0)).
Proof.
  intros Hv Hs Hs1.
  get_param Hv "t_incub" ti H1 Hti.
  get_param Hv "inf_rate_unconf" ru H2 Hru.
  get_param Hv "inf_rate_conf" rc H3 Hrc.
  get_param Hv "surv_rate" sr H4 Hsr.
  get_param Hv "t_conf" tcf H5 Htcf.
  get_param Hv "t_dec_conf" tdc H6 Htdc.
  get_param Hv "t_rec_conf" trc H7 Htrc.
  get_param Hv "t_dec_unconf" tdu H8 Htdu.
  get_param Hv "t_rec_unconf" tru H9 Htru.
  rewrite H4 in Hs. injection Hs as <-. apply fleb_Fin in Hs1.
  rewrite (Model2_construct_jac_eq _ _ _ _ _ _ _ _ _ _
             H1 H2 H3 H4 H5 H6 H7 H8 H9).
  fin_entries. eexists. split; [reflexivity|].
  pose proof (Qdiv_neg (-1) tdu eq_refl Htdu).
  pose proof (Qdiv_neg (-1) tru eq_refl Htru).
  pose proof (Qdiv_spos 1 tcf eq_refl Htcf).
  intros i j x. unfold getitem2. rewrite getitem_nat.
  do 9 (destruct i as [|i]; [cbn; rewrite getitem_nat;
    do 9 (destruct j as [|j]; [cbn; intros [= <-]; repeat split; intros;
                               try lia; try sign_goal|]);
    cbn; discriminate|]).
  cbn. discriminate.
Qed.

(** C3 (as stated, refuted): at the base example the diagonal entry of the
    [dec] compartment is zero, hence not negative. *)
Lemma entry_signs_counterexample :
  valid_params Model.paramnames base_params ∧
  (∃ s, base_params !! "surv_rate" = Some s ∧ fleb s (Fin 1) = true) ∧
  ∃ K x, Model.construct_jac base_params = Ok K ∧
         getitem2 K 3 3 = Ok x ∧ fltb x (Fin 0) = false.
Proof.
  split; [|split].
  - intros name Hin. unfold Model.paramnames in Hin.
    repeat (apply elem_of_cons in Hin as [-> | Hin]);
      [eexists; split; [reflexivity|]; eexists; split; [reflexivity|reflexivity] ..|].
    by apply elem_of_nil in Hin.
  - eexists. split; reflexivity.
  - eexists. eexists. split; [reflexivity|]. split; reflexivity.
Qed.

Lemma base_params_valid : valid_params Model.paramnames base_params.
Proof.
  intros name Hin. unfold Model.paramnames in Hin.
  repeat (apply elem_of_cons in Hin as [-> | Hin]);
    [eexists; split; [reflexivity|]; eexists; split; reflexivity ..|].
  by apply elem_of_nil in Hin.
Qed.

Lemma extended_params_valid : valid_params Model2.paramnames extended_params.
Proof.
  intros name Hin. unfold Model2.paramnames in Hin.
  repeat (apply elem_of_cons in Hin as [-> | Hin]);
    [eexists; split; [reflexivity|]; eexists; split; reflexivity ..|].
  by apply elem_of_nil in Hin.
Qed.

(** C3 (amended).  For every parameter vector with all values strictly
    positive and finite and [surv_rate] at most 1, in both variants every
    off-diagonal entry of the rate matrix is non-negative, the diagonal
    entries of the exposed and infectious compartments (the first 3 of the
    base variant, the first 5 of the extended one) are negative, and every
    other diagonal entry is zero. *)
Theorem rate_matrix_entry_signs (p1 p2 : paramvec) s1 s2 :
  valid_params Model.paramnames p1 →
  p1 !! "surv_rate" = Some s1 → fleb s1 (Fin 1) = true →
  valid_params Model2.paramnames p2 →
  p2 !! "surv_rate" = Some s2 → fleb s2 (Fin 1) = true →
  (∃ K, Model.construct_jac p1 = Ok K ∧
     ∀ (i j : nat) x, getitem2 K (Z.of_nat i) (Z.of_nat j) = Ok x →
       (i ≠ j → fleb (Fin 0) x = true) ∧
       (i = j → i < 3 → fltb x (Fin 0) = true) ∧
       (i = j → 3 ≤ i → feq x (Fin 0))) ∧
  (∃ K, Model2.construct_jac p2 = Ok K ∧
     ∀ (i j : nat) x, getitem2 K (Z.of_nat i) (Z.of_nat j) = Ok x →
       (i ≠ j → fleb (Fin 0) x = true) ∧
       (i = j → i < 5 → fltb x (Fin 0) = true) ∧
       (i = j → 5 ≤ i → feq x (Fin 0))).
Proof.
  intros Hv1 Hs1 Hle1 Hv2 Hs2 Hle2. split.
  - eapply Model_entry_signs; eauto.
  - eapply Model2_entry_signs; eauto.
Qed.

Lemma rate_matrix_entry_signs_witness :
  (∃ K, Model.construct_jac base_params = Ok K ∧
     ∀ (i j : nat) x, getitem2 K (Z.of_nat i) (Z.of_nat j) = Ok x →
       (i ≠ j → fleb (Fin 0) x = true) ∧
       (i = j → i < 3 → fltb x (Fin 0) = true) ∧
       (i = j → 3 ≤ i → feq x (Fin 0))) ∧
  (∃ K, Model2.construct_jac extended_params = Ok K ∧
     ∀ (i j : nat) x, getitem2 K (Z.of_nat i) (Z.of_nat j) = Ok x →
       (i ≠ j → fleb (Fin 0) x = true) ∧
       (i = j → i < 5 → fltb x (Fin 0) = true) ∧
       (i = j → 5 ≤ i → feq x (Fin 0))).
Proof.
  apply (rate_matrix_entry_signs base_params extended_params
           (Fin (1 # 2)) (Fin (1 # 2))).
  - exact base_params_valid.
  - reflexivity.
  - reflexivity.
  - exact extended_params_valid.
  - reflexivity.
  - reflexivity.
Defined.

(** ** Column sums *)

Lemma Model_column_sums (params : paramvec) :
  valid_params Model.paramnames params →
  ∃ K inf_rate sums,
    Model.construct_jac params = Ok K ∧
    params !! "inf_rate" = Some inf_rate ∧
    column_sums K = Ok sums ∧
    Forall2 feq sums [Fin 0; inf_rate; inf_rate; Fin 0; Fin 0] ∧
    fltb (Fin 0) inf_rate = true.
Proof.
  intros Hv.
  get_param Hv "t_incub" ti H1 Hti.
  get_param Hv "inf_rate" r H2 Hr.
  get_param Hv "surv_rate" sr H3 Hsr.
  get_param Hv "t_dec" td H4 Htd.
  get_param Hv "t_rec" tr H5 Htr.
  rewrite (Model_construct_jac_eq _ _ _ _ _ _ H1 H2 H3 H4 H5).
  fin_entries. do 3 eexists.
  split; [reflexivity|]. split; [exact H2|].
  split; [cbv -[Qplus Qmult Qdiv Qopp Qminus Qinv]; reflexivity|].
  split; [|apply fltb_Fin, Hr].
  repeat constructor; apply feq_Fin; field; lra.
Qed.

Lemma Model2_column_sums (params : paramvec) :
  valid_params Model2.paramnames params →
  ∃ K inf_rate_unconf inf_rate_conf t_dec_unconf t_rec_unconf sums,
    Model2.construct_jac params = Ok K ∧
    params !! "inf_rate_unconf" = Some inf_rate_unconf ∧
    params !! "inf_rate_conf" = Some inf_rate_conf ∧
    params !! "t_dec_unconf" = Some t_dec_unconf ∧
    params !! "t_rec_unconf" = Some t_rec_unconf ∧
    column_sums K = Ok sums ∧
    Forall2 feq sums
      [Fin 0;
       (inf_rate_unconf - Fin 1 / t_dec_unconf)%S;
       (inf_rate_unconf - Fin 1 / t_rec_unconf)%S;
       inf_rate_conf; inf_rate_conf;
       Fin 0; Fin 0; Fin 0; Fin 0] ∧
    fltb (Fin 0) inf_rate_conf = true.
Proof.
  intros Hv.
  get_param Hv "t_incub" ti H1 Hti.
  get_param Hv "inf_rate_unconf" ru H2 Hru.
  get_param Hv "inf_rate_conf" rc H3 Hrc.
  get_param Hv "surv_rate" sr H4 Hsr.
  get_param Hv "t_conf" tcf H5 Htcf.
  get_param Hv "t_dec_conf" tdc H6 Htdc.
  get_param Hv "t_rec_conf" trc H7 Htrc.
  get_param Hv "t_dec_unconf" tdu H8 Htdu.
  get_param Hv "t_rec_unconf" tru H9 Htru.
  rewrite (Model2_construct_jac_eq _ _ _ _ _ _ _ _ _ _
             H1 H2 H3 H4 H5 H6 H7 H8 H9).
  fin_entries. do 6 eexists.
  split; [reflexivity|].
  split; [exact H2|]. split; [exact H3|].
  split; [exact H8|]. split; [exact H9|].
  split; [cbv -[Qplus Qmult Qdiv Qopp Qminus Qinv]; reflexivity|].
  split; [|apply fltb_Fin, Hrc].
  fin_entries.
  repeat constructor; apply feq_Fin; field; lra.
Qed.

(** C1 (amended).  For every parameter vector whose values are all strictly
    positive and finite, in both variants the ["exposed"] column of the rate
    matrix and the columns of the terminal compartments sum to exactly 0,
    while an infectious column sums to the infection rate it feeds back into
    ["exposed"], less what leaves the tracked compartments: [inf_rate] in
    the base variant and [inf_rate_conf] for the confirmed columns of the
    extended variant, both strictly positive, and
    [inf_rate_unconf - 1/t_dec_unconf], [inf_rate_unconf - 1/t_rec_unconf]
    for its unconfirmed columns. *)
Theorem rate_matrix_column_sums (p1 p2 : paramvec) :
  valid_params Model.paramnames p1 →
  valid_params Model2.paramnames p2 →
  (∃ K inf_rate sums,
     Model.construct_jac p1 = Ok K ∧
     p1 !! "inf_rate" = Some inf_rate ∧
     column_sums K = Ok sums ∧
     Forall2 feq sums [Fin 0; inf_rate; inf_rate; Fin 0; Fin 0] ∧
     fltb (Fin 0) inf_rate = true) ∧
  (∃ K inf_rate_unconf inf_rate_conf t_dec_unconf t_rec_unconf sums,
     Model2.construct_jac p2 = Ok K ∧
     p2 !! "inf_rate_unconf" = Some inf_rate_unconf ∧
     p2 !! "inf_rate_conf" = Some inf_rate_conf ∧
     p2 !! "t_dec_unconf" = Some t_dec_unconf ∧
     p2 !! "t_rec_unconf" = Some t_rec_unconf ∧
     column_sums K = Ok sums ∧
     Forall2 feq sums
       [Fin 0;
        (inf_rate_unconf - Fin 1 / t_dec_unconf)%S;
        (inf_rate_unconf - Fin 1 / t_rec_unconf)%S;
        inf_rate_conf; inf_rate_conf;
        Fin 0; Fin 0; Fin 0; Fin 0] ∧
     fltb (Fin 0) inf_rate_conf = true).
Proof.
  intros Hv1 Hv2. split.
  - apply Model_column_sums, Hv1.
  - apply Model2_column_sums, Hv2.
Qed.

Lemma rate_matrix_column_sums_witness :
  (∃ K inf_rate sums,
     Model.construct_jac base_params = Ok K ∧
     base_params !! "inf_rate" = Some inf_rate ∧
     column_sums K = Ok sums ∧
     Forall2 feq sums [Fin 0; inf_rate; inf_rate; Fin 0; Fin 0] ∧
     fltb (Fin 0) inf_rate = true) ∧
  (∃ K inf_rate_unconf inf_rate_conf t_dec_unconf t_rec_unconf sums,
     Model2.construct_jac extended_params = Ok K ∧
     extended_params !! "inf_rate_unconf" = Some inf_rate_unconf ∧
     extended_params !! "inf_rate_conf" = Some inf_rate_conf ∧
     extended_params !! "t_dec_unconf" = Some t_dec_unconf ∧
     extended_params !! "t_rec_unconf" = Some t_rec_unconf ∧
     column_sums K = Ok sums ∧
     Forall2 feq sums
       [Fin 0;
        (inf_rate_unconf - Fin 1 / t_dec_unconf)%S;
        (inf_rate_unconf - Fin 1 / t_rec_unconf)%S;
        inf_rate_conf; inf_rate_conf;
        Fin 0; Fin 0; Fin 0; Fin 0] ∧
     fltb (Fin 0) inf_rate_conf = true).
Proof.
  apply (rate_matrix_column_sums base_params extended_params).
  - exact base_params_valid.
  - exact extended_params_valid.
Defined.

(** C1 (as stated, refuted): at the base example, whose values are all
    strictly positive, the column of [infectious_dec] sums to 4/5, which is
    neither at most 0 nor equal to the diagonal entry of that column. *)
Lemma rate_matrix_column_sums_counterexample :
  valid_params Model.paramnames base_params ∧
  ∃ K c d, Model.construct_jac base_params = Ok K ∧
           column K 1 = Ok c ∧
           feq (fsum c) (Fin (4 # 5)) ∧
           fleb (fsum c) (Fin 0) = false ∧
           getitem2 K 1 1 = Ok d ∧
           feqb (fsum c) d = false.
Proof.
  split; [exact base_params_valid|].
  do 3 eexists. split; [reflexivity|]. split; [reflexivity|].
  split; [reflexivity|]. split; [reflexivity|]. split; reflexivity.
Qed.

(** ** Shape of the rate matrix *)

(** C2.  The base rate matrix is 5 x 5, as many as its compartments; the
    extended rate matrix, evaluated at a complete parameter vector, is
    9 x 9, the number of parameters, although the extended variant has 7
    compartments. *)
Theorem rate_matrix_shape_at_examples :
  size Model.vecnames = 5 ∧
  (∃ K, Model.construct_jac base_params = Ok K ∧ has_shape 5 5 K) ∧
  size Model2.vecnames = 7 ∧
  (∃ K, Model2.construct_jac extended_params = Ok K ∧ has_shape 9 9 K).
Proof.
  split; [reflexivity|]. split; [|split; [reflexivity|]].
  - destruct (Model.construct_jac base_params) as [K|] eqn:E;
      [|vm_compute in E; discriminate].
    exists K. split; [reflexivity|]. eapply Model_construct_jac_shape, E.
  - destruct (Model2.construct_jac extended_params) as [K|] eqn:E;
      [|vm_compute in E; discriminate].
    exists K. split; [reflexivity|]. eapply Model2_construct_jac_shape, E.
Qed.

(** ** The observable extractor *)

Lemma getitem_minus1 {A} (l : list A) x :
  last l = Some x → getitem l (-1) = Ok x.
Proof.
  intros H. apply last_Some in H as [l' ->]. apply getitem_last.
Qed.

Lemma column_minus1 (M : matrix) col :
  Forall2 (fun row x => last row = Some x) M col → column M (-1) = Ok col.
Proof.
  intros H. apply mapM_Ok. eapply Forall2_impl; [exact H|].
  intros row x. apply getitem_minus1.
Qed.

Lemma last_column_exists (M : matrix) :
  Forall (fun row => row ≠ []) M →
  ∃ col, Forall2 (fun row x => last row = Some x) M col.
Proof.
  induction 1 as [|row M Hrow _ [col IH]].
  - exists []. constructor.
  - destruct (last row) as [x|] eqn:E.
    + exists (x :: col). by constructor.
    + apply last_None in E. contradiction.
Qed.

Lemma Forall2_last {A B} (P : A → B → Prop) l k y :
  Forall2 P l k → last k = Some y → ∃ x, last l = Some x ∧ P x y.
Proof.
  intros H Hy. apply last_Some in Hy as [k' ->].
  apply Forall2_app_inv_r in H as (l' & l'' & _ & H & ->).
  apply Forall2_cons_inv_r in H as (x & l3 & Hx & H & ->).
  apply Forall2_nil_inv_r in H as ->.
  exists x. split; [apply last_snoc|exact Hx].
Qed.

Lemma max_eigvecs_rescaled (eigvecs : matrix) :
  eigvecs ≠ [] → Forall (fun row => row ≠ []) eigvecs →
  ∃ v, max_eigvecs eigvecs = Ok v ∧ rescaled_dominant eigvecs v ∧
       length v = length eigvecs.
Proof.
  intros Hne Hrows. destruct (last_column_exists eigvecs Hrows) as [col Hcol].
  assert (Hlen : length eigvecs = length col) by (eapply Forall2_length, Hcol).
  destruct (last col) as [e|] eqn:He.
  2:{ apply last_None in He. subst col. destruct eigvecs; [done|discriminate]. }
  destruct (Forall2_last _ _ _ _ Hcol He) as (row & Hrow & Hrowe).
  exists ((fun x => x * fsign e)%S <$> col). split; [|split].
  - unfold max_eigvecs. rewrite (column_minus1 _ _ Hcol). cbn.
    unfold getitem2. rewrite (getitem_minus1 _ _ Hrow). cbn.
    rewrite (getitem_minus1 _ _ Hrowe). reflexivity.
  - exists col, e. auto.
  - rewrite length_fmap. lia.
Qed.

(** The sign fixing makes the last coordinate non-negative, unless it is
    [nan]. *)
Lemma fmul_fsign_nonneg e :
  is_nan e = false → fleb (Fin 0) (e * fsign e)%S = true.
Proof.
  destruct e as [q| | |]; [|reflexivity|reflexivity|discriminate].
  intros _. unfold fsign. cbn [fltb fmul]. apply fleb_Fin.
  destruct (Qle_bool q 0) eqn:E1, (Qle_bool 0 q) eqn:E2; cbn [negb bool_to_Q];
    try (apply Qle_bool_iff in E1); try (apply Qle_bool_iff in E2).
  - assert (q == 0)%Q as -> by lra. lra.
  - assert (q < 0)%Q.
    { apply Qnot_le_lt. intros H. apply Qle_bool_iff in H. congruence. } nra.
  - assert (0 < q)%Q.
    { apply Qnot_le_lt. intros H. apply Qle_bool_iff in H. congruence. } nra.
  - assert (0 < q)%Q.
    { apply Qnot_le_lt. intros H. apply Qle_bool_iff in H. congruence. } 
    assert (q < 0)%Q.
    { apply Qnot_le_lt. intros H'. apply Qle_bool_iff in H'. congruence. } lra.
Qed.

Lemma rescaled_dominant_last eigvecs v w :
  rescaled_dominant eigvecs v → last v = Some w →
  ∃ e, w = (e * fsign e)%S ∧
       (is_nan e = false → fleb (Fin 0) w = true).
Proof.
  intros (col & e & _ & He & ->) Hw.
  rewrite fmap_last, He in Hw. injection Hw as <-.
  exists e. split; [reflexivity|]. apply fmul_fsign_nonneg.
Qed.

Lemma has_shape_rows_nonempty n m (M : matrix) :
  has_shape n (S m) M → Forall (fun row => row ≠ []) M.
Proof.
  intros [_ H]. eapply Forall_impl; [exact H|].
  intros row Hlen ->. discriminate.
Qed.

Lemma has_shape_nonempty n m (M : matrix) : has_shape (S n) m M → M ≠ [].
Proof. intros [H _] ->. discriminate. Qed.

Lemma Model_get_simobservable_formula (eig : eig_fn) (params : paramvec)
    jac eigvals eigvecs gradient :
  Model.construct_jac params = Ok jac →
  eig jac = Ok (eigvals, eigvecs) →
  last eigvals = Some gradient →
  has_shape 5 5 eigvecs →
  ∃ v v_idec v_irec v_dec v_rec,
    rescaled_dominant eigvecs v ∧
    v !! 1 = Some v_idec ∧ v !! 2 = Some v_irec ∧
    v !! 3 = Some v_dec ∧ v !! 4 = Some v_rec ∧
    last v = Some v_rec ∧
    (is_nan v_rec = false → fleb (Fin 0) v_rec = true) ∧
    Model.get_simobservable eig params =
      Ok (gradient, (v_dec / v_rec)%S, (v_dec / (v_irec + v_idec))%S).
Proof.
  intros Hjac Heig Hg Hshape.
  destruct (max_eigvecs_rescaled eigvecs) as (v & Hmax & Hv & Hlen).
  { eapply has_shape_nonempty, Hshape. }
  { eapply has_shape_rows_nonempty, Hshape. }
  destruct Hshape as [Hn _]. rewrite Hn in Hlen.
  destruct v as [|v0 [|v1 [|v2 [|v3 [|v4 [|]]]]]]; try discriminate.
  exists [v0; v1; v2; v3; v4], v1, v2, v3, v4.
  do 6 (split; [done|]). split.
  - intros Hnan. 
    destruct (rescaled_dominant_last _ _ v4 Hv eq_refl) as (e & -> & Hpos).
    apply Hpos. by destruct e.
  - unfold Model.get_simobservable. rewrite Hjac. cbn. rewrite Heig. cbn.
    rewrite Hmax. cbn. rewrite (getitem_minus1 _ _ Hg). reflexivity.
Qed.

Lemma Model2_get_simobservable_formula (eig : eig_fn) (params : paramvec)
    jac eigvals eigvecs gradient :
  Model2.construct_jac params = Ok jac →
  eig jac = Ok (eigvals, eigvecs) →
  last eigvals = Some gradient →
  has_shape 9 9 eigvecs →
  ∃ v v_idec_conf v_irec_conf v_dec_conf v_rec_conf v_last,
    rescaled_dominant eigvecs v ∧
    v !! 3 = Some v_idec_conf ∧ v !! 4 = Some v_irec_conf ∧
    v !! 5 = Some v_dec_conf ∧ v !! 6 = Some v_rec_conf ∧
    last v = Some v_last ∧
    (is_nan v_last = false → fleb (Fin 0) v_last = true) ∧
    Model2.get_simobservable eig params =
      Ok (gradient, (v_dec_conf / v_rec_conf)%S,
          (v_dec_conf / (v_idec_conf + v_irec_conf))%S).
Proof.
  intros Hjac Heig Hg Hshape.
  destruct (max_eigvecs_rescaled eigvecs) as (v & Hmax & Hv & Hlen).
  { eapply has_shape_nonempty, Hshape. }
  { eapply has_shape_rows_nonempty, Hshape. }
  destruct Hshape as [Hn _]. rewrite Hn in Hlen.
  destruct v as [|v0 [|v1 [|v2 [|v3 [|v4 [|v5 [|v6 [|v7 [|v8 [|]]]]]]]]]];
    try discriminate.
  exists [v0; v1; v2; v3; v4; v5; v6; v7; v8], v3, v4, v5, v6, v8.
  do 6 (split; [done|]). split.
  - intros Hnan.
    destruct (rescaled_dominant_last _ _ v8 Hv eq_refl) as (e & -> & Hpos).
    apply Hpos. by destruct e.
  - unfold Model2.get_simobservable. rewrite Hjac. cbn. rewrite Heig. cbn.
    rewrite Hmax. cbn. rewrite (getitem_minus1 _ _ Hg). reflexivity.
Qed.

(** C4.  Whenever the rate matrix is built and [eig] returns eigenvalues
    and a matrix of eigenvectors of the size of the rate matrix,
    [get_simobservable] returns the last eigenvalue together with
    [v[dec] / v[rec]] and [v[dec]] over the sum of the infectious entries,
    where [v] is the last column of the eigenvectors multiplied by the sign
    of its own last entry, so that the last entry of [v] is non-negative
    (or [nan]).  The base variant adds both infectious entries; the extended
    variant adds the confirmed death-track and recovery-track entries only. *)
Theorem get_simobservable_formula (eig : eig_fn) (p1 p2 : paramvec)
    jac1 eigvals1 eigvecs1 gradient1 jac2 eigvals2 eigvecs2 gradient2 :
  Model.construct_jac p1 = Ok jac1 →
  eig jac1 = Ok (eigvals1, eigvecs1) →
  last eigvals1 = Some gradient1 →
  has_shape 5 5 eigvecs1 →
  Model2.construct_jac p2 = Ok jac2 →
  eig jac2 = Ok (eigvals2, eigvecs2) →
  last eigvals2 = Some gradient2 →
  has_shape 9 9 eigvecs2 →
  (∃ v v_idec v_irec v_dec v_rec,
     rescaled_dominant eigvecs1 v ∧
     v !! 1 = Some v_idec ∧ v !! 2 = Some v_irec ∧
     v !! 3 = Some v_dec ∧ v !! 4 = Some v_rec ∧
     last v = Some v_rec ∧
     (is_nan v_rec = false → fleb (Fin 0) v_rec = true) ∧
     Model.get_simobservable eig p1 =
       Ok (gradient1, (v_dec / v_rec)%S, (v_dec / (v_irec + v_idec))%S)) ∧
  (∃ v v_idec_conf v_irec_conf v_dec_conf v_rec_conf v_last,
     rescaled_dominant eigvecs2 v ∧
     v !! 3 = Some v_idec_conf ∧ v !! 4 = Some v_irec_conf ∧
     v !! 5 = Some v_dec_conf ∧ v !! 6 = Some v_rec_conf ∧
     last v = Some v_last ∧
     (is_nan v_last = false → fleb (Fin 0) v_last = true) ∧
     Model2.get_simobservable eig p2 =
       Ok (gradient2, (v_dec_conf / v_rec_conf)%S,
           (v_dec_conf / (v_idec_conf + v_irec_conf))%S)).
Proof.
  intros Hj1 He1 Hg1 Hs1 Hj2 He2 Hg2 Hs2. split.
  - eapply Model_get_simobservable_formula; eauto.
  - eapply Model2_get_simobservable_formula; eauto.
Qed.

Lemma base_eigvecs_shape : has_shape 5 5 base_eigvecs.
Proof. split; [reflexivity|]. repeat constructor. Qed.

Lemma extended_eigvecs_shape : has_shape 9 9 extended_eigvecs.
Proof. split; [reflexivity|]. repeat constructor. Qed.

Lemma get_simobservable_formula_witness :
  (∃ v v_idec v_irec v_dec v_rec,
     rescaled_dominant base_eigvecs v ∧
     v !! 1 = Some v_idec ∧ v !! 2 = Some v_irec ∧
     v !! 3 = Some v_dec ∧ v !! 4 = Some v_rec ∧
     last v = Some v_rec ∧
     (is_nan v_rec = false → fleb (Fin 0) v_rec = true) ∧
     Model.get_simobservable example_eig base_params =
       Ok (Fin (1 # 5), (v_dec / v_rec)%S, (v_dec / (v_irec + v_idec))%S)) ∧
  (∃ v v_idec_conf v_irec_conf v_dec_conf v_rec_conf v_last,
     rescaled_dominant extended_eigvecs v ∧
     v !! 3 = Some v_idec_conf ∧ v !! 4 = Some v_irec_conf ∧
     v !! 5 = Some v_dec_conf ∧ v !! 6 = Some v_rec_conf ∧
     last v = Some v_last ∧
     (is_nan v_last = false → fleb (Fin 0) v_last = true) ∧
     Model2.get_simobservable example_eig extended_params =
       Ok (Fin (1 # 5), (v_dec_conf / v_rec_conf)%S,
           (v_dec_conf / (v_idec_conf + v_irec_conf))%S)).
Proof.
  eapply (get_simobservable_formula example_eig base_params extended_params).
  - vm_compute. reflexivity.
  - reflexivity.
  - reflexivity.
  - exact base_eigvecs_shape.
  - vm_compute. reflexivity.
  - reflexivity.
  - reflexivity.
  - exact extended_eigvecs_shape.
Defined.

(** ** Sign fixing at a zero last coordinate *)

Lemma fsign_zero e : feq e (Fin 0) → fsign e = Fin (0 - 0).
Proof.
  destruct e as [q| | |]; try discriminate. intros H%feq_Fin.
  unfold fsign. cbn [fltb].
  assert (Qle_bool q 0 = true) as -> by (apply Qle_bool_iff; lra).
  assert (Qle_bool 0 q = true) as -> by (apply Qle_bool_iff; lra).
  reflexivity.
Qed.

Lemma fmul_zero x : zero_or_nan (x * Fin (0 - 0))%S.
Proof.
  destruct x as [q| | |]; cbn; [right|left..]; try reflexivity.
  apply feq_Fin. ring.
Qed.

Lemma zero_or_nan_add x y : zero_or_nan x → zero_or_nan y → zero_or_nan (x + y)%S.
Proof.
  intros [->|Hx] [->|Hy]; try (left; by destruct x); try (left; reflexivity).
  destruct x as [a| | |], y as [b| | |]; try discriminate.
  apply feq_Fin in Hx, Hy. right. apply feq_Fin. lra.
Qed.

Lemma zero_or_nan_div x y : zero_or_nan x → zero_or_nan y → (x / y)%S = NaN.
Proof.
  intros [->|Hx] [->|Hy]; try (by destruct x); try reflexivity.
  destruct x as [a| | |], y as [b| | |]; try discriminate.
  apply feq_Fin in Hx, Hy. unfold fdiv, inf_times.
  by rewrite (Qeq_eq_bool _ _ Hy), (Qeq_eq_bool _ _ Hx).
Qed.

Lemma zero_or_nan_not_positive x : zero_or_nan x → fltb (Fin 0) x = false.
Proof.
  intros [->|H]; [reflexivity|]. destruct x as [q| | |]; try discriminate.
  apply feq_Fin in H. cbn. apply negb_false_iff, Qle_bool_iff. lra.
Qed.

Lemma max_eigvecs_zero (eigvecs : matrix) n m e :
  has_shape (S n) (S m) eigvecs →
  getitem2 eigvecs (-1) (-1) = Ok e → feq e (Fin 0) →
  ∃ v, max_eigvecs eigvecs = Ok v ∧ length v = S n ∧ Forall zero_or_nan v.
Proof.
  intros Hshape He Hz.
  destruct (last_column_exists eigvecs) as [col Hcol].
  { eapply has_shape_rows_nonempty, Hshape. }
  exists ((fun x => x * fsign e)%S <$> col). split; [|split].
  - unfold max_eigvecs. rewrite (column_minus1 _ _ Hcol). cbn.
    rewrite He. reflexivity.
  - rewrite length_fmap. destruct Hshape as [<- _].
    symmetry. eapply Forall2_length, Hcol.
  - rewrite (fsign_zero _ Hz). apply Forall_fmap, Forall_forall.
    intros x _. apply fmul_zero.
Qed.

Lemma Model_get_simobservable_zero (eig : eig_fn) (params : paramvec)
    jac eigvals eigvecs gradient e :
  Model.construct_jac params = Ok jac →
  eig jac = Ok (eigvals, eigvecs) →
  last eigvals = Some gradient →
  has_shape 5 5 eigvecs →
  getitem2 eigvecs (-1) (-1) = Ok e → feq e (Fin 0) →
  ∃ v w, max_eigvecs eigvecs = Ok v ∧ Forall zero_or_nan v ∧
         last v = Some w ∧ fltb (Fin 0) w = false ∧
         Model.get_simobservable eig params = Ok (gradient, NaN, NaN).
Proof.
  intros Hjac Heig Hg Hshape He Hz.
  destruct (max_eigvecs_zero _ _ _ _ Hshape He Hz) as (v & Hmax & Hlen & Hv).
  destruct v as [|v0 [|v1 [|v2 [|v3 [|v4 [|]]]]]]; try discriminate.
  exists [v0; v1; v2; v3; v4], v4.
  pose proof Hv as Hv'.
  apply Forall_cons in Hv' as [H0 Hv']. apply Forall_cons in Hv' as [H1 Hv'].
  apply Forall_cons in Hv' as [H2 Hv']. apply Forall_cons in Hv' as [H3 Hv'].
  apply Forall_cons in Hv' as [H4 _].
  split; [exact Hmax|]. split; [exact Hv|]. split; [reflexivity|].
  split; [by apply zero_or_nan_not_positive|].
  unfold Model.get_simobservable. rewrite Hjac. cbn. rewrite Heig. cbn.
  rewrite Hmax. cbn. rewrite (getitem_minus1 _ _ Hg).
  transitivity (Ok (gradient, v3 / v4, v3 / (v2 + v1)))%S; [reflexivity|].
  rewrite (zero_or_nan_div v3 v4), (zero_or_nan_div v3 (v2 + v1)%S);
    auto using zero_or_nan_add.
Qed.

Lemma Model2_get_simobservable_zero (eig : eig_fn) (params : paramvec)
    jac eigvals eigvecs gradient e :
  Model2.construct_jac params = Ok jac →
  eig jac = Ok (eigvals, eigvecs) →
  last eigvals = Some gradient →
  has_shape 9 9 eigvecs →
  getitem2 eigvecs (-1) (-1) = Ok e → feq e (Fin 0) →
  ∃ v w, max_eigvecs eigvecs = Ok v ∧ Forall zero_or_nan v ∧
         last v = Some w ∧ fltb (Fin 0) w = false ∧
         Model2.get_simobservable eig params = Ok (gradient, NaN, NaN).
Proof.
  intros Hjac Heig Hg Hshape He Hz.
  destruct (max_eigvecs_zero _ _ _ _ Hshape He Hz) as (v & Hmax & Hlen & Hv).
  destruct v as [|v0 [|v1 [|v2 [|v3 [|v4 [|v5 [|v6 [|v7 [|v8 [|]]]]]]]]]];
    try discriminate.
  exists [v0; v1; v2; v3; v4; v5; v6; v7; v8], v8.
  pose proof Hv as Hv'.
  apply Forall_cons in Hv' as [H0 Hv']. apply Forall_cons in Hv' as [H1 Hv'].
  apply Forall_cons in Hv' as [H2 Hv']. apply Forall_cons in Hv' as [H3 Hv'].
  apply Forall_cons in Hv' as [H4 Hv']. apply Forall_cons in Hv' as [H5 Hv'].
  apply Forall_cons in Hv' as [H6 Hv']. apply Forall_cons in Hv' as [H7 Hv'].
  apply Forall_cons in Hv' as [H8 _].
  split; [exact Hmax|]. split; [exact Hv|]. split; [reflexivity|].
  split; [by apply zero_or_nan_not_positive|].
  unfold Model2.get_simobservable. rewrite Hjac. cbn. rewrite Heig. cbn.
  rewrite Hmax. cbn. rewrite (getitem_minus1 _ _ Hg).
  transitivity (Ok (gradient, v5 / v6, v5 / (v3 + v4)))%S; [reflexivity|].
  rewrite (zero_or_nan_div v5 v6), (zero_or_nan_div v5 (v3 + v4)%S);
    auto using zero_or_nan_add.
Qed.

(** C9.  Whenever the last coordinate of the dominant eigenvector returned
    by [eig] is exactly zero, the sign fixing multiplies the eigenvector by
    [sign(0) = 0]: every entry of the rescaled eigenvector is zero (or
    [nan]), its last entry is not strictly positive, and both ratio
    observables are [0/0 = nan], in both variants.  The witness below shows
    inputs at which this happens. *)
Theorem sign_fixing_at_zero (eig : eig_fn) (p1 p2 : paramvec)
    jac1 eigvals1 eigvecs1 gradient1 e1 jac2 eigvals2 eigvecs2 gradient2 e2 :
  Model.construct_jac p1 = Ok jac1 →
  eig jac1 = Ok (eigvals1, eigvecs1) →
  last eigvals1 = Some gradient1 →
  has_shape 5 5 eigvecs1 →
  getitem2 eigvecs1 (-1) (-1) = Ok e1 → feq e1 (Fin 0) →
  Model2.construct_jac p2 = Ok jac2 →
  eig jac2 = Ok (eigvals2, eigvecs2) →
  last eigvals2 = Some gradient2 →
  has_shape 9 9 eigvecs2 →
  getitem2 eigvecs2 (-1) (-1) = Ok e2 → feq e2 (Fin 0) →
  (∃ v w, max_eigvecs eigvecs1 = Ok v ∧ Forall zero_or_nan v ∧
          last v = Some w ∧ fltb (Fin 0) w = false ∧
          Model.get_simobservable eig p1 = Ok (gradient1, NaN, NaN)) ∧
  (∃ v w, max_eigvecs eigvecs2 = Ok v ∧ Forall zero_or_nan v ∧
          last v = Some w ∧ fltb (Fin 0) w = false ∧
          Model2.get_simobservable eig p2 = Ok (gradient2, NaN, NaN)).
Proof.
  intros. split.
  - eapply Model_get_simobservable_zero; eauto.
  - eapply Model2_get_simobservable_zero; eauto.
Qed.

Lemma nosurvivor_eigvecs_shape : has_shape 5 5 nosurvivor_eigvecs.
Proof. split; [reflexivity|]. repeat constructor. Qed.

Lemma sign_fixing_at_zero_witness :
  (∃ v w, max_eigvecs nosurvivor_eigvecs = Ok v ∧ Forall zero_or_nan v ∧
          last v = Some w ∧ fltb (Fin 0) w = false ∧
          Model.get_simobservable nosurvivor_eig nosurvivor_params =
            Ok (Fin (1 # 5), NaN, NaN)) ∧
  (∃ v w, max_eigvecs extended_eigvecs = Ok v ∧ Forall zero_or_nan v ∧
          last v = Some w ∧ fltb (Fin 0) w = false ∧
          Model2.get_simobservable nosurvivor_eig extended_params =
            Ok (Fin (1 # 5), NaN, NaN)).
Proof.
  eapply (sign_fixing_at_zero nosurvivor_eig nosurvivor_params extended_params).
  - vm_compute. reflexivity.
  - reflexivity.
  - reflexivity.
  - exact nosurvivor_eigvecs_shape.
  - reflexivity.
  - reflexivity.
  - vm_compute. reflexivity.
  - reflexivity.
  - reflexivity.
  - exact extended_eigvecs_shape.
  - reflexivity.
  - reflexivity.
Defined.

(** ** Filtering the posterior samples *)

Lemma filter_ext_in {A} (P Q : A → Prop) `{!∀ x, Decision (P x)}
    `{!∀ x, Decision (Q x)} (l : list A) :
  (∀ x, x ∈ l → P x ↔ Q x) → filter P l = filter Q l.
Proof.
  induction l as [|x l IH]; intros Hext; [reflexivity|].
  rewrite !filter_cons. rewrite IH.
  - apply decide_ext. apply Hext. left.
  - intros y Hy. apply Hext. by right.
Qed.

Lemma omap_ext_in {A B} (f g : A → option B) (l : list A) :
  (∀ x, x ∈ l → f x = g x) → omap f l = omap g l.
Proof.
  intros H. apply list_omap_ext. apply Forall2_same_length_lookup.
  split; [reflexivity|]. intros i x y Hx Hy.
  rewrite Hx in Hy. injection Hy as <-. apply H.
  eapply list_elem_of_lookup_2, Hx.
Qed.

Lemma select_indices_from {A} (s : list A) (mask : list bool) k :
  length mask = length s →
  select s mask =
  omap (fun i => s !! (i - k))
       (filter (fun i => mask !! (i - k) = Some true) (seq k (length s))).
Proof.
  revert mask k. induction s as [|x s IH]; intros [|b mask] k Hlen;
    try discriminate; [reflexivity|].
  cbn [select length seq]. rewrite filter_cons.
  replace (k - k) with 0 by lia. cbn [lookup list_lookup].
  assert (Hrest :
    omap (fun i => (x :: s) !! (i - k))
         (filter (fun i => (b :: mask) !! (i - k) = Some true)
                 (seq (S k) (length s))) = select s mask).
  { rewrite (IH mask (S k)) by (cbn in Hlen; lia).
    rewrite (filter_ext_in _ (fun i => mask !! (i - S k) = Some true)).
    - apply omap_ext_in. intros i Hi%list_elem_of_filter.
      destruct Hi as [_ Hi%elem_of_seq].
      replace (i - k) with (S (i - S k)) by lia. reflexivity.
    - intros i Hi%elem_of_seq.
      replace (i - k) with (S (i - S k)) by lia. reflexivity. }
  destruct b.
  - rewrite decide_True by reflexivity. cbn. replace (k - k) with 0 by lia.
    cbn. f_equal. exact (eq_sym Hrest).
  - rewrite decide_False by discriminate. exact (eq_sym Hrest).
Qed.

Lemma select_indices (s : list scalar) (mask : list bool) :
  length mask = length s →
  select s mask =
  draws_at s (filter (fun i => mask !! i = Some true) (seq 0 (length s))).
Proof.
  intros Hlen. rewrite (select_indices_from s mask 0 Hlen). unfold draws_at.
  rewrite (filter_ext_in _ (fun i => mask !! i = Some true)).
  - apply omap_ext_in. intros i _. by rewrite Nat.sub_0_r.
  - intros i _. by rewrite Nat.sub_0_r.
Qed.

Lemma length_draws_at (s : list scalar) idxs :
  Forall (fun i => i < length s) idxs → length (draws_at s idxs) = length idxs.
Proof.
  unfold draws_at. induction 1 as [|i idxs Hi _ IH]; [reflexivity|].
  cbn. destruct (lookup_lt_is_Some_2 s i Hi) as [x ->]. cbn. by rewrite IH.
Qed.

Lemma kept_indices_lt n masks : Forall (fun i => i < n) (kept_indices n masks).
Proof.
  apply Forall_forall. intros i [_ Hi%elem_of_seq]%list_elem_of_filter. lia.
Qed.

Lemma mask_mul_same (a b : list bool) :
  length a = length b → mask_mul a b = Ok (zip_with andb a b).
Proof. intros H. unfold mask_mul. by rewrite decide_True. Qed.

Lemma dict_get_Some {V} (d : gmap string V) k v :
  d !! k = Some v → dict_get d k = Ok v.
Proof. apply dict_get_Ok. Qed.

Lemma dict_get_None {V} (d : gmap string V) k :
  d !! k = None → dict_get d k = Raise (KeyError k).
Proof. unfold dict_get. by intros ->. Qed.

Section Filter.
Context (samples : sampleset) (fdict : gmap string predicate) (n : nat).

Lemma filter_loop_known keys masks idx :
  length idx = n → known_predicates fdict samples n keys masks →
  ∃ idx', filter_loop samples fdict idx keys = Ok idx' ∧ length idx' = n ∧
    ∀ i, idx' !! i = Some true ↔
         idx !! i = Some true ∧
         Forall (fun mask : list bool => mask !! i = Some true) masks.
Proof.
  intros Hlen Hknown. revert idx Hlen.
  induction Hknown as [|key mask keys masks (f & Hf & Hmask & Hm) _ IH];
    intros idx Hlen.
  - exists idx. split; [reflexivity|]. split; [exact Hlen|].
    intros i. split; [intros H; split; [exact H|constructor]|tauto].
  - destruct (IH (zip_with andb idx mask)) as (idx' & Hloop & Hlen' & Hidx').
    { rewrite length_zip_with. lia. }
    exists idx'. split; [|split; [exact Hlen'|]].
    + unfold filter_loop. cbn [foldlM]. cbv beta. rewrite (dict_get_Some _ _ _ Hf).
      cbn. rewrite Hmask. cbn. rewrite mask_mul_same by lia. cbn. exact Hloop.
    + intros i. rewrite Hidx', Forall_cons, lookup_zip_with.
      destruct (idx !! i) as [[]|], (mask !! i) as [[]|]; cbn;
        intuition congruence.
Qed.

Lemma filter_loop_unknown keys idx :
  length idx = n →
  (∀ key f, key ∈ keys → fdict !! key = Some f →
            ∃ mask, f samples = Ok mask ∧ length mask = n) →
  (∃ key, key ∈ keys ∧ fdict !! key = None) →
  ∃ k, k ∈ keys ∧ fdict !! k = None ∧ filter_loop samples fdict idx keys = Raise (KeyError k).
Proof.
  intros Hlen Hwf Hex. revert idx Hlen.
  induction keys as [|key keys IH]; intros idx Hlen.
  - destruct Hex as (key & Hin & _). by apply elem_of_nil in Hin.
  - unfold filter_loop. cbn [foldlM]. cbv beta.
    destruct (fdict !! key) as [f|] eqn:Hf.
    + destruct (Hwf key f) as (mask & Hmask & Hm); [left|exact Hf|].
      rewrite (dict_get_Some _ _ _ Hf). cbn. rewrite Hmask. cbn. rewrite mask_mul_same by lia. cbn.
      destruct (IH) with (idx := zip_with andb idx mask)
        as (k & Hk & Hnone & Hloop).
      * intros key' f' Hin. apply Hwf. by right.
      * destruct Hex as (key' & Hin & Hnone).
        apply elem_of_cons in Hin as [->|Hin]; [congruence|eauto].
      * rewrite length_zip_with. lia.
      * exists k. split; [by right|]. split; [exact Hnone|exact Hloop].
    + exists key. split; [left|]. split; [exact Hf|].
      by rewrite (dict_get_None _ _ Hf).
Qed.

Lemma filter_build idx names acc :
  length idx = n → sample_set_of names n samples →
  ∃ new, select_loop samples idx acc names = Ok new ∧
    ∀ name,
      (name ∈ names →
       ∃ s, samples !! name = Some s ∧ new !! name = Some (select s idx)) ∧
      (name ∉ names → new !! name = acc !! name).
Proof.
  intros Hlen. revert acc. induction names as [|name0 names IH]; intros acc Hs.
  - exists acc. split; [reflexivity|]. intros name. split; [|reflexivity].
    intros Hin. by apply elem_of_nil in Hin.
  - destruct (Hs name0) as (s0 & Hs0 & Hlen0); [left|].
    destruct (IH (<[name0 := select s0 idx]> acc)) as (new & Hloop & Hnew).
    { intros name Hin. apply Hs. by right. }
    exists new. split.
    + unfold select_loop. cbn [foldlM]. cbv beta. rewrite (dict_get_Some _ _ _ Hs0).
      cbn.
      unfold getitem_mask. rewrite decide_True by lia. cbn. exact Hloop.
    + intros name. destruct (Hnew name) as [Hin Hout]. split.
      * intros [->|Hin']%elem_of_cons; [|by apply Hin].
        destruct (decide (name0 ∈ names)) as [Hd|Hd]; [by apply Hin|].
        exists s0. split; [exact Hs0|].
        rewrite (Hout Hd). apply lookup_insert_eq.
      * intros Hnot. apply not_elem_of_cons in Hnot as [Hne Hnot].
        rewrite (Hout Hnot). by apply lookup_insert_ne.
Qed.

End Filter.

Lemma bind_Ok {A B} (a : A) (f : A → result B) : (Ok a ≫= f) = f a.
Proof. reflexivity. Qed.

Lemma getitem_0 {A} (x : A) l : getitem (x :: l) 0 = Ok x.
Proof. apply (getitem_nat (x :: l) 0). Qed.

(** C6.  On a sample set in which every parameter has [n] draws (those of
    the first parameter being real numbers, or [+inf]), filtering by a list
    of known predicates, each giving one boolean per draw, returns for every
    parameter exactly the draws at the indices where every listed mask
    holds, in order: all returned sequences are taken at the same indices,
    so they are aligned and of one length, the number of such indices (400
    when exactly 400 draws satisfy the predicates). *)
Theorem filter_samples_keeps (paramnames : list string) (samples : sampleset)
    (fdict : gmap string predicate) (keys : list string)
    (masks : list (list bool)) (n : nat) name0 rest s0 :
  paramnames = name0 :: rest →
  sample_set_of paramnames n samples →
  samples !! name0 = Some s0 →
  Forall (fun v => fgtb v NInf = true) s0 →
  known_predicates fdict samples n keys masks →
  ∃ new, filter_samples paramnames samples fdict keys = Ok new ∧
    (∀ name, name ∈ paramnames →
       ∃ s, samples !! name = Some s ∧
            new !! name = Some (draws_at s (kept_indices n masks)) ∧
            length (draws_at s (kept_indices n masks)) =
              length (kept_indices n masks)) ∧
    (∀ name, name ∉ paramnames → new !! name = None) ∧
    (length (kept_indices n masks) = 400 →
     ∀ name, name ∈ paramnames →
       ∃ s', new !! name = Some s' ∧ length s' = 400).
Proof.
  intros -> Hset Hs0 Hreal Hknown.
  assert (Hn : length s0 = n).
  { destruct (Hset name0) as (s & Hs & Hlen); [left|]. congruence. }
  destruct (filter_loop_known samples fdict n keys masks
              ((fun v => fgtb v NInf) <$> s0))
    as (idx & Hloop & Hlen & Hidx); [by rewrite length_fmap|exact Hknown|].
  destruct (filter_build samples n idx (name0 :: rest) ∅ Hlen Hset)
    as (new & Hbuild & Hnew).
  assert (Hkept : ∀ s, length s = n →
            select s idx = draws_at s (kept_indices n masks)).
  { intros s Hs. rewrite select_indices by lia. rewrite Hs. f_equal.
    apply filter_ext_in. intros i Hi%elem_of_seq. rewrite Hidx.
    rewrite list_lookup_fmap.
    destruct (lookup_lt_is_Some_2 s0 i) as [v Hv]; [lia|]. rewrite Hv. cbn.
    rewrite (proj1 (Forall_forall _ _) Hreal v)
      by (eapply list_elem_of_lookup_2, Hv).
    tauto. }
  assert (Hall : ∀ name, name ∈ name0 :: rest →
            ∃ s, samples !! name = Some s ∧
                 new !! name = Some (draws_at s (kept_indices n masks)) ∧
                 length (draws_at s (kept_indices n masks)) =
                   length (kept_indices n masks)).
  { intros name Hin. destruct (Hnew name) as [Hyes _].
    destruct (Hyes Hin) as (s & Hs & Hlook).
    destruct (Hset name Hin) as (s' & Hs' & Hlen').
    assert (s' = s) as -> by congruence.
    exists s. split; [exact Hs|]. split.
    - rewrite Hlook. f_equal. by apply Hkept.
    - apply length_draws_at. rewrite Hlen'. apply kept_indices_lt. }
  exists new. split; [|split; [exact Hall|split]].
  - unfold filter_samples. rewrite getitem_0, bind_Ok.
    rewrite (dict_get_Some _ _ _ Hs0), bind_Ok. cbv zeta.
    rewrite Hloop, bind_Ok. exact Hbuild.
  - intros name Hnot. destruct (Hnew name) as [_ Hno].
    rewrite (Hno Hnot). apply lookup_empty.
  - intros H400 name Hin. destruct (Hall name Hin) as (s & _ & Hlook & Hlen').
    eexists. split; [exact Hlook|]. congruence.
Qed.

Lemma samples_1000_set : sample_set_of Model.paramnames 1000 samples_1000.
Proof.
  intros name Hin. unfold Model.paramnames in Hin.
  repeat (apply elem_of_cons in Hin as [-> | Hin]);
    [eexists; split; [reflexivity|]; vm_compute; reflexivity ..|].
  by apply elem_of_nil in Hin.
Qed.

Lemma filter_samples_keeps_witness :
  ∃ new,
    filter_samples Model.paramnames samples_1000 filters_dict
      ["low_infection_rate"] = Ok new ∧
    ∀ name, name ∈ Model.paramnames →
      ∃ s', new !! name = Some s' ∧ length s' = 400.
Proof.
  destruct (filter_samples_keeps Model.paramnames samples_1000 filters_dict
              ["low_infection_rate"]
              [(fun i => bool_decide (i < 400)) <$> seq 0 1000] 1000
              "t_incub" ["inf_rate"; "surv_rate"; "t_dec"; "t_rec"]
              (replicate 1000 (Fin 5)))
    as (new & Hnew & _ & _ & H400).
  - reflexivity.
  - exact samples_1000_set.
  - reflexivity.
  - apply Forall_replicate. reflexivity.
  - constructor; [|constructor].
    exists low_infection_rate. split; [reflexivity|].
    split; [vm_compute; reflexivity|vm_compute; reflexivity].
  - exists new. split; [exact Hnew|]. apply H400. vm_compute. reflexivity.
Defined.

(** C8.  When some listed predicate name is not a key of the predicate
    dictionary (the predicates that are known giving one boolean per draw),
    [filter_samples] raises [KeyError]: at the first unknown name, or at the
    first parameter name when the sample set lacks it.  The outcome is the
    exception alone, without any sample set; [filter_samples] only reads
    [samples], which the embedding passes by value. *)
Theorem filter_samples_unknown_predicate (paramnames : list string)
    (samples : sampleset) (fdict : gmap string predicate)
    (keys : list string) name0 rest :
  paramnames = name0 :: rest →
  (∀ s0 key f, samples !! name0 = Some s0 → key ∈ keys →
               fdict !! key = Some f →
               ∃ mask, f samples = Ok mask ∧ length mask = length s0) →
  (∃ key, key ∈ keys ∧ fdict !! key = None) →
  ∃ k, filter_samples paramnames samples fdict keys = Raise (KeyError k) ∧
       ((samples !! name0 = None ∧ k = name0) ∨
        (k ∈ keys ∧ fdict !! k = None)).
Proof.
  intros -> Hwf Hex. unfold filter_samples. rewrite getitem_0, bind_Ok.
  destruct (samples !! name0) as [s0|] eqn:Hs0.
  - rewrite (dict_get_Some _ _ _ Hs0), bind_Ok. cbv zeta.
    destruct (filter_loop_unknown samples fdict (length s0) keys
                ((fun v => fgtb v NInf) <$> s0))
      as (k & Hk & Hnone & Hloop).
    + by rewrite length_fmap.
    + intros key f. by apply Hwf.
    + exact Hex.
    + exists k. rewrite Hloop. split; [reflexivity|]. right. by split.
  - exists name0. rewrite (dict_get_None _ _ Hs0). split; [reflexivity|].
    left. by split.
Qed.

Lemma filter_samples_unknown_predicate_witness :
  filter_samples Model.paramnames samples_3 filters_dict
    ["low_infection_rate"; "high_infection_rate"] =
  Raise (KeyError "high_infection_rate").
Proof.
  destruct (filter_samples_unknown_predicate Model.paramnames samples_3
              filters_dict ["low_infection_rate"; "high_infection_rate"]
              "t_incub" ["inf_rate"; "surv_rate"; "t_dec"; "t_rec"])
    as (k & Hk & _).
  - reflexivity.
  - intros s0 key f Hs0 Hkey Hf.
    assert (s0 = [Fin 5; Fin 6; Fin 7]) as -> by (vm_compute in Hs0; congruence).
    apply elem_of_cons in Hkey as [->|Hkey].
    + assert (Hlow : filters_dict !! "low_infection_rate" =
                     Some low_infection_rate) by reflexivity.
      assert (f = low_infection_rate) as -> by congruence.
      eexists. split; [vm_compute; reflexivity|reflexivity].
    + apply elem_of_cons in Hkey as [->|Hkey]; [discriminate Hf|].
      by apply elem_of_nil in Hkey.
  - exists "high_infection_rate". split; [|reflexivity].
    right. left.
  - rewrite Hk. vm_compute in Hk. injection Hk as <-. reflexivity.
Defined.

(** ** Replaying the posterior samples *)

Lemma draw_loop (samples : sampleset) n i names (acc : paramvec) :
  sample_set_of names n samples → i < n →
  ∃ params,
    foldlM (fun (d : paramvec) name =>
              s ← dict_get samples name;
              v ← getitem s (Z.of_nat i);
              Ok (<[name := v]> d)) acc names = Ok params ∧
    ∀ name,
      (name ∈ names →
       ∃ s v, samples !! name = Some s ∧ s !! i = Some v ∧
              params !! name = Some v) ∧
      (name ∉ names → params !! name = acc !! name).
Proof.
  intros Hset Hi. revert acc. induction names as [|name0 names IH]; intros acc.
  - exists acc. split; [reflexivity|]. intros name. split; [|reflexivity].
    intros Hin. by apply elem_of_nil in Hin.
  - destruct (Hset name0) as (s0 & Hs0 & Hlen0); [left|].
    destruct (lookup_lt_is_Some_2 s0 i) as [v0 Hv0]; [lia|].
    destruct (IH) with (acc := <[name0 := v0]> acc) as (params & Hloop & Hp).
    { intros name Hin. apply Hset. by right. }
    exists params. split.
    + cbn [foldlM]. cbv beta. rewrite (dict_get_Some _ _ _ Hs0), bind_Ok.
      rewrite getitem_nat, Hv0, bind_Ok, bind_Ok. exact Hloop.
    + intros name. destruct (Hp name) as [Hin Hout]. split.
      * intros [->|Hin']%elem_of_cons; [|by apply Hin].
        destruct (decide (name0 ∈ names)) as [Hd|Hd]; [by apply Hin|].
        exists s0, v0. split; [exact Hs0|]. split; [exact Hv0|].
        rewrite (Hout Hd). apply lookup_insert_eq.
      * intros Hnot. apply not_elem_of_cons in Hnot as [Hne Hnot].
        rewrite (Hout Hnot). by apply lookup_insert_ne.
Qed.

Lemma draw_is_draw names (samples : sampleset) n i :
  sample_set_of names n samples → i < n →
  ∃ params, draw names samples (Z.of_nat i) = Ok params ∧
            is_draw names samples i params.
Proof.
  intros Hset Hi.
  destruct (draw_loop samples n i names ∅ Hset Hi) as (params & Hloop & Hp).
  exists params. split; [exact Hloop|]. intros name.
  destruct (Hp name) as [Hin Hout]. split; [exact Hin|].
  intros Hnot. rewrite (Hout Hnot). apply lookup_empty.
Qed.

Lemma zip_star_triples (obs : list observables) :
  obs ≠ [] →
  zip_star (tuple_to_list <$> obs) =
  [(fun o : observables => o.1.1) <$> obs;
   (fun o : observables => o.1.2) <$> obs;
   (fun o : observables => o.2) <$> obs].
Proof.
  induction obs as [|[[a b] c] obs IH]; [done|]. intros _.
  destruct obs as [|o obs]; [reflexivity|].
  change (zip_star (tuple_to_list <$> (a, b, c) :: o :: obs))
    with (zip_with cons [a; b; c] (zip_star (tuple_to_list <$> o :: obs))).
  rewrite IH by discriminate. reflexivity.
Qed.

(** For at least one draw, the result has one row per observable and one
    column per draw, the column of draw [i] holding the observables of its
    parameter vector; without any draw it has no row at all. *)
Lemma sample_observations_columns (paramnames : list string)
    (get_simobservable : paramvec → result observables)
    (samples : sampleset) (n : nat) (obs : list observables) name0 rest :
  paramnames = name0 :: rest →
  sample_set_of paramnames n samples →
  Forall2 (fun i o => ∀ params,
             draw paramnames samples (Z.of_nat i) = Ok params →
             get_simobservable params = Ok o)
          (seq 0 n) obs →
  sample_observations paramnames get_simobservable samples =
  Ok (if decide (n = 0) then []
      else [(fun o : observables => o.1.1) <$> obs;
            (fun o : observables => o.1.2) <$> obs;
            (fun o : observables => o.2) <$> obs]).
Proof.
  intros Hnames Hset Hobs. unfold sample_observations.
  rewrite Hnames, getitem_0, bind_Ok. rewrite <- Hnames.
  destruct (Hset name0) as (s0 & Hs0 & Hlen0); [rewrite Hnames; left|].
  rewrite (dict_get_Some _ _ _ Hs0), bind_Ok. cbv zeta. rewrite Hlen0.
  assert (Hmap : mapM (fun i : nat =>
                     params ← draw paramnames samples (Z.of_nat i);
                     get_simobservable params) (seq 0 n) = Ok obs).
  { apply mapM_Ok. apply Forall2_same_length_lookup.
    split; [eapply Forall2_length, Hobs|].
    intros k i o Hi Ho.
    pose proof (Forall2_lookup_lr _ _ _ _ _ _ Hobs Hi Ho) as Hio.
    apply lookup_seq in Hi as [-> Hk]. cbn in *.
    destruct (draw_is_draw paramnames samples n k Hset Hk)
      as (params & Hdraw & _).
    rewrite Hdraw, bind_Ok. by apply Hio. }
  rewrite Hmap, bind_Ok. f_equal.
  destruct (decide (n = 0)) as [->|Hn].
  - apply Forall2_nil_inv_l in Hobs as ->. reflexivity.
  - apply zip_star_triples. intros ->.
    apply Forall2_length in Hobs. rewrite length_seq in Hobs. cbn in Hobs. lia.
Qed.

(** Replaying a single draw gives the observables of that draw's parameter
    vector, one row per observable. *)
Lemma replay_single_draw (paramnames : list string)
    (get_simobservable : paramvec → result observables)
    (samples : sampleset) name0 rest params g r d :
  paramnames = name0 :: rest →
  sample_set_of paramnames 1 samples →
  draw paramnames samples 0 = Ok params →
  get_simobservable params = Ok (g, r, d) →
  is_draw paramnames samples 0 params ∧
  sample_observations paramnames get_simobservable samples =
    Ok [[g]; [r]; [d]].
Proof.
  intros Hnames Hset Hdraw Hobs. split.
  - destruct (draw_is_draw paramnames samples 1 0 Hset) as (p & Hp & Hd); [lia|].
    change (Z.of_nat 0) with 0%Z in Hp.
    rewrite Hdraw in Hp. by injection Hp as <-.
  - rewrite (sample_observations_columns paramnames get_simobservable samples
               1 [(g, r, d)] name0 rest Hnames Hset); [reflexivity|].
    constructor; [|constructor]. intros p Hp.
    change (Z.of_nat 0) with 0%Z in Hp.
    rewrite Hdraw in Hp. by injection Hp as <-.
Qed.

Lemma replay_single_draw_example :
  draw Model.paramnames samples_1 0 = Ok base_params ∧
  Model.get_simobservable example_eig base_params =
    Ok (Fin (1 # 5), Fin 1, Fin (1 # 2)) ∧
  sample_observations Model.paramnames (Model.get_simobservable example_eig)
    samples_1 = Ok [[Fin (1 # 5)]; [Fin 1]; [Fin (1 # 2)]].
Proof.
  assert (Hdraw : draw Model.paramnames samples_1 0 = Ok base_params)
    by (vm_compute; reflexivity).
  assert (Hobs : Model.get_simobservable example_eig base_params =
                 Ok (Fin (1 # 5), Fin 1, Fin (1 # 2)))
    by (vm_compute; reflexivity).
  split; [exact Hdraw|]. split; [exact Hobs|].
  eapply (replay_single_draw Model.paramnames); [reflexivity| |exact Hdraw|exact Hobs].
  intros name Hin. unfold Model.paramnames in Hin.
  repeat (apply elem_of_cons in Hin as [-> | Hin]);
    [eexists; split; [reflexivity|reflexivity] ..|].
  by apply elem_of_nil in Hin.
Qed.

(** C7.  Replayed on a sample set without any draw, [sample_observations]
    returns an array without any row, where one row per observable (3 rows
    of 0 columns) is expected: transposing the empty list of triples gives
    the empty list. *)
Theorem replay_without_draw
    (get_simobservable : paramvec → result observables) :
  sample_observations Model.paramnames get_simobservable samples_0 = Ok [] ∧
  sample_set_of Model.paramnames 0 samples_0.
Proof.
  split; [reflexivity|].
  intros name Hin. unfold Model.paramnames in Hin.
  repeat (apply elem_of_cons in Hin as [-> | Hin]);
    [eexists; split; [reflexivity|reflexivity] ..|].
  by apply elem_of_nil in Hin.
Qed.

(** ** The spectrum of the rate matrix *)

Lemma eigenpair_b_sound M l u : eigenpair_b M l u = true → eigenpair M l u.
Proof.
  unfold eigenpair_b, eigenpair. rewrite !andb_true_iff.
  intros [[[Hlen Hnz] Hlen'] Heq].
  apply bool_decide_eq_true in Hlen. apply bool_decide_eq_true in Hlen'.
  split; [exact Hlen|]. split.
  - apply existsb_exists in Hnz as (x & Hin & Hx).
    apply Exists_exists. exists x. split; [by apply list_elem_of_In|].
    intros E. apply Qeq_eq_bool in E. rewrite E in Hx. discriminate.
  - apply Forall2_same_length_lookup. split; [by rewrite length_fmap|].
    intros i x y Hx Hy. rewrite forallb_forall in Heq.
    apply Qeq_bool_eq. apply (Heq (x, y)). apply list_elem_of_In.
    apply list_elem_of_lookup. exists i. by apply lookup_zip_Some.
Qed.





(** The example decompositions are right: the example matrices are the
    rate matrices of the example parameters, and the last column of each
    matrix of eigenvectors is an eigenvector for the largest eigenvalue. *)
Lemma example_rate_matrices :
  Model.construct_jac base_params = Ok (to_matrix base_K) ∧
  Model2.construct_jac extended_params = Ok (to_matrix extended_K) ∧
  Model.construct_jac nosurvivor_params = Ok (to_matrix nosurvivor_K).
Proof. repeat split; vm_compute; reflexivity. Qed.

Lemma example_dominant_eigenvectors :
  eigenpair base_K (1 # 5) [4; 1; 1; 1; 1]%Q ∧
  columnQ base_V 4 = Some [4; 1; 1; 1; 1]%Q ∧
  eigenpair extended_K (1 # 5) [12; 2; 2; 1; 1; 1; 1; 0; 0]%Q ∧
  columnQ extended_V 8 = Some [12; 2; 2; 1; 1; 1; 1; 0; 0]%Q ∧
  eigenpair nosurvivor_K (1 # 5) [2; 1; 0; 1; 0]%Q ∧
  columnQ nosurvivor_V 4 = Some [2; 1; 0; 1; 0]%Q.
Proof.
  split; [apply eigenpair_b_sound; reflexivity|]. split; [reflexivity|].
  split; [apply eigenpair_b_sound; reflexivity|]. split; [reflexivity|].
  split; [apply eigenpair_b_sound; reflexivity|reflexivity].
Qed.



Lemma to_vector_inj u u' : to_vector u = to_vector u' → u = u'.
Proof.
  unfold to_vector. revert u'.
  induction u as [|x u IH]; intros [|x' u'] H; try discriminate; [done|].
  injection H as -> H. f_equal. by apply IH.
Qed.


(** In the extended variant the last row of the rate matrix is zero, so an
    eigenvector for an eigenvalue other than 0, such as a growing mode,
    ends in 0: the coordinate that the sign fixing reads. *)
Lemma Model2_eigenvector_ends_in_zero (params : paramvec) K l u x :
  Model2.construct_jac params = Ok (to_matrix K) →
  eigenpair K l u → ¬ (l == 0)%Q → last u = Some x → (x == 0)%Q.
Proof.
  intros HK (Hlen & _ & Heq) Hl Hx.
  pose proof HK as (? & ? & ? & ? & ? & ? & ? & ? & ? & H1 & H2 & H3 & H4
                    & H5 & H6 & H7 & H8 & H9)%Model2_construct_jac_Ok.
  rewrite (Model2_construct_jac_eq _ _ _ _ _ _ _ _ _ _
             H1 H2 H3 H4 H5 H6 H7 H8 H9) in HK.
  injection HK as HK.
  destruct K as [|r0 [|r1 [|r2 [|r3 [|r4 [|r5 [|r6 [|r7 [|r8 [|]]]]]]]]]];
    try discriminate.
  assert (Hr8 : to_vector r8 = to_vector [0; 0; 0; 0; 0; 0; 0; 0; 0]%Q).
  { cbn [to_matrix fmap list_fmap] in HK.
    injection HK as _ _ _ _ _ _ _ _ Hr8. by rewrite <- Hr8. }
  apply to_vector_inj in Hr8. subst r8.
  destruct u as [|u0 [|u1 [|u2 [|u3 [|u4 [|u5 [|u6 [|u7 [|u8 [|]]]]]]]]]];
    try discriminate.
  injection Hx as <-.
  cbn [mat_vec fmap list_fmap] in Heq.
  do 8 (apply Forall2_cons in Heq as [_ Heq]).
  apply Forall2_cons in Heq as [Heq _].
  cbv [dotQ zip_with foldr] in Heq.
  assert (E : (l * u8 == 0)%Q) by lra.
  destruct (Qmult_integral _ _ E); [contradiction|assumption].
Qed.

(** ** The spectrum over the real numbers *)

#[local] Open Scope R_scope.







(** *** The spectra of the examples *)


















(** ** The empirical growth rate *)

Lemma rsum_sq_shift (x : list R) c :
  rsum ((fun xi => (xi - c) ^ 2) <$> x) =
  rsum (zip_with Rmult x x) - 2 * c * rsum x + INR (length x) * c ^ 2.
Proof.
  induction x as [|a x IH]; [cbn; lra|].
  cbn [fmap list_fmap rsum foldr zip_with length] in *.
  rewrite S_INR. unfold rsum in *. cbn [list_fmap] in IH. rewrite IH. ring.
Qed.

Lemma rsum_cross_shift (x y : list R) c d :
  length x = length y →
  rsum (zip_with (fun xi yi => (xi - c) * (yi - d)) x y) =
  rsum (zip_with Rmult x y) - c * rsum y - d * rsum x
  + INR (length x) * c * d.
Proof.
  revert y. induction x as [|a x IH]; intros [|b y] Hlen; try discriminate.
  - cbn. lra.
  - cbn [rsum foldr zip_with length] in *. rewrite S_INR.
    unfold rsum in *. rewrite IH by (cbn in Hlen; lia). ring.
Qed.

Lemma squared_error_expand (x y : list R) a b :
  length x = length y →
  squared_error x y a b =
  rsum (zip_with Rmult y y) - 2 * a * rsum (zip_with Rmult x y)
  - 2 * b * rsum y + a ^ 2 * rsum (zip_with Rmult x x)
  + 2 * a * b * rsum x + INR (length x) * b ^ 2.
Proof.
  unfold squared_error.
  revert y. induction x as [|u x IH]; intros [|v y] Hlen; try discriminate.
  - cbn. lra.
  - cbn [rsum foldr zip_with length] in *. rewrite S_INR.
    unfold rsum in *. rewrite IH by (cbn in Hlen; lia). ring.
Qed.

Lemma rsum_nonneg (l : list R) : Forall (fun v => 0 <= v) l → 0 <= rsum l.
Proof.
  induction 1 as [|v l Hv _ IH]; cbn; [lra|]. unfold rsum in IH. lra.
Qed.

Lemma rsum_sq_nonneg (x : list R) c : 0 <= rsum ((fun xi => (xi - c) ^ 2) <$> x).
Proof.
  apply rsum_nonneg, Forall_fmap, Forall_forall. intros v _. apply pow2_ge_0.
Qed.

(** Two different abscissae make the sum of squared deviations positive. *)
Lemma rsum_sq_pos (a b : R) (x : list R) c :
  a ≠ b → 0 < rsum ((fun xi => (xi - c) ^ 2) <$> a :: b :: x).
Proof.
  intros Hab. cbn [fmap list_fmap rsum foldr].
  pose proof (rsum_sq_nonneg x c) as H. unfold rsum in H. cbn [fmap] in H.
  assert (Ha : 0 <= (a - c) ^ 2) by apply pow2_ge_0.
  assert (Hb : 0 <= (b - c) ^ 2) by apply pow2_ge_0.
  assert (0 < (a - c) ^ 2 + (b - c) ^ 2); [|lra].
  destruct (Req_dec a c) as [->|Hac].
  - assert (0 < (b - c) ^ 2); [|lra].
    rewrite <- Rsqr_pow2. apply Rsqr_pos_lt. lra.
  - assert (0 < (a - c) ^ 2); [|lra].
    rewrite <- Rsqr_pow2. apply Rsqr_pos_lt. lra.
Qed.

Lemma arange_deviation_pos n :
  (2 ≤ n)%nat → 0 < rsum ((fun xi => (xi - rmean (arange n)) ^ 2) <$> arange n).
Proof.
  intros Hn. destruct n as [|[|n]]; try lia.
  change (arange (S (S n))) with (INR 0 :: INR 1 :: (INR <$> seq 2 n)).
  apply rsum_sq_pos. cbn. lra.
Qed.

Lemma deviation_normal (x : list R) :
  x ≠ [] →
  INR (length x) * rsum ((fun xi => (xi - rmean x) ^ 2) <$> x) =
  INR (length x) * rsum (zip_with Rmult x x) - rsum x * rsum x.
Proof.
  intros Hx. rewrite rsum_sq_shift. unfold rmean.
  assert (INR (length x) ≠ 0).
  { apply not_0_INR. destruct x; [done|discriminate]. }
  field. assumption.
Qed.

Lemma ols_slope_normal (x y : list R) :
  x ≠ [] → length x = length y →
  0 < rsum ((fun xi => (xi - rmean x) ^ 2) <$> x) →
  0 < INR (length x) * rsum (zip_with Rmult x x) - rsum x * rsum x ∧
  ols_slope x y =
  (INR (length x) * rsum (zip_with Rmult x y) - rsum x * rsum y)
  / (INR (length x) * rsum (zip_with Rmult x x) - rsum x * rsum x).
Proof.
  intros Hx Hlen Hdev.
  assert (Hn : 0 < INR (length x)).
  { apply lt_0_INR. destruct x; [done|cbn; lia]. }
  pose proof (deviation_normal x Hx) as HD.
  assert (HDpos : 0 < INR (length x) * rsum (zip_with Rmult x x)
                       - rsum x * rsum x).
  { rewrite <- HD. apply Rmult_lt_0_compat; assumption. }
  split; [exact HDpos|].
  unfold ols_slope. rewrite rsum_cross_shift by exact Hlen.
  rewrite rsum_sq_shift. unfold rmean. rewrite <- Hlen.
  set (n := INR (length x)) in *. set (sx := rsum x) in *.
  set (sy := rsum y). set (sxx := rsum (zip_with Rmult x x)) in *.
  set (sxy := rsum (zip_with Rmult x y)).
  field. split; [lra|nra].
Qed.

Lemma polyfit1_ols (x y : list R) :
  x ≠ [] → length x = length y →
  0 < rsum ((fun xi => (xi - rmean x) ^ 2) <$> x) →
  polyfit1 x y = Ok (ols_slope x y, ols_intercept x y).
Proof.
  intros Hx Hlen Hdev.
  assert (Hn : 0 < INR (length x)).
  { apply lt_0_INR. destruct x; [done|cbn; lia]. }
  destruct (ols_slope_normal x y Hx Hlen Hdev) as [Hpos Hslope].
  unfold polyfit1. destruct x as [|x0 x]; [done|].
  destruct (Req_EM_T _ 0) as [E|_].
  { rewrite E in Hpos. nra. }
  cbv zeta. rewrite <- Hslope. unfold ols_intercept, rmean. rewrite <- Hlen.
  do 2 f_equal. field. lra.
Qed.

Lemma ols_minimises (x y : list R) a b :
  x ≠ [] → length x = length y →
  0 < rsum ((fun xi => (xi - rmean x) ^ 2) <$> x) →
  squared_error x y (ols_slope x y) (ols_intercept x y)
  <= squared_error x y a b.
Proof.
  intros Hx Hlen Hdev.
  assert (Hn : 0 < INR (length x)).
  { apply lt_0_INR. destruct x; [done|cbn; lia]. }
  destruct (ols_slope_normal x y Hx Hlen Hdev) as [HDpos Hg].
  assert (Hi : ols_intercept x y =
               rsum y / INR (length x)
               - ols_slope x y * (rsum x / INR (length x))).
  { unfold ols_intercept, rmean. by rewrite <- Hlen. }
  rewrite !squared_error_expand by exact Hlen.
  set (g := ols_slope x y) in *. set (i := ols_intercept x y) in *.
  set (n := INR (length x)) in *.
  set (sx := rsum x) in *. set (sy := rsum y) in *.
  set (sxx := rsum (zip_with Rmult x x)) in *.
  set (sxy := rsum (zip_with Rmult x y)) in *.
  set (syy := rsum (zip_with Rmult y y)).
  clearbody g i n sx sy sxx sxy syy.
  assert (N2 : sx * g + n * i = sy).
  { rewrite Hi. field. lra. }
  assert (Hg' : g * (n * sxx - sx * sx) = n * sxy - sx * sy).
  { rewrite Hg. field. lra. }
  assert (N1 : sxx * g + sx * i = sxy).
  { assert (n * (sxx * g + sx * i) = n * sxy); [|nra].
    rewrite Hi. transitivity (g * (n * sxx - sx * sx) + sx * sy).
    - field. lra.
    - rewrite Hg'. ring. }
  assert (Hdiff :
    n * ((syy - 2 * a * sxy - 2 * b * sy + a ^ 2 * sxx + 2 * a * b * sx
          + n * b ^ 2)
         - (syy - 2 * g * sxy - 2 * i * sy + g ^ 2 * sxx + 2 * g * i * sx
            + n * i ^ 2))
    = (n * (b - i) + sx * (a - g)) ^ 2 + (n * sxx - sx * sx) * (a - g) ^ 2).
  { rewrite <- N1, <- N2. ring. }
  assert (0 <= (n * (b - i) + sx * (a - g)) ^ 2) by apply pow2_ge_0.
  assert (0 <= (a - g) ^ 2) by apply pow2_ge_0.
  assert (0 <= (n * sxx - sx * sx) * (a - g) ^ 2)
    by (apply Rmult_le_pos; lra).
  nra.
Qed.

Lemma residuals_squared_error (x y : list R) a b :
  rsum (zip_with (fun u v => (u - v) ^ 2) y ((fun xi => b + a * xi) <$> x)) =
  squared_error x y a b.
Proof.
  unfold squared_error. revert y.
  induction x as [|u x IH]; intros [|v y]; try reflexivity.
  cbn [fmap list_fmap zip_with rsum foldr]. unfold rsum in IH.
  cbn [fmap] in IH. rewrite IH. ring.
Qed.

Lemma getitem_row7 (row : list R) :
  length row = 7%nat →
  ∃ a b c, row !! 4%nat = Some a ∧ row !! 5%nat = Some b ∧
           row !! 6%nat = Some c ∧
           getitem row (-3) = Ok a ∧ getitem row (-2) = Ok b ∧
           getitem row (-1) = Ok c.
Proof.
  intros Hlen.
  destruct row as [|r0 [|r1 [|r2 [|r3 [|r4 [|r5 [|r6 [|]]]]]]]];
    try discriminate.
  exists r4, r5, r6. repeat split; reflexivity.
Qed.

Lemma columns_of_rows7 (data : list (list R)) ninfectious :
  Forall2 (fun row v => length row = 7%nat ∧ row !! 4%nat = Some v)
          data ninfectious →
  mapM (fun row : list R => getitem row (-3)) data = Ok ninfectious ∧
  (∃ nrec, mapM (fun row : list R => getitem row (-2)) data = Ok nrec) ∧
  (∃ ndec, mapM (fun row : list R => getitem row (-1)) data = Ok ndec).
Proof.
  induction 1 as [|row v data ninf [Hlen Hv] _ (IH1 & [nrec IH2] & [ndec IH3])].
  - split; [reflexivity|]. split; by eexists.
  - destruct (getitem_row7 row Hlen) as (a & b & c & Ha & _ & _ & H3 & H2 & H1).
    assert (a = v) as -> by congruence.
    cbn [mapM]. rewrite H3, H2, H1, IH1, IH2, IH3.
    split; [reflexivity|]. split; by eexists.
Qed.

Lemma length_arange n : length (arange n) = n.
Proof. unfold arange. by rewrite length_fmap, length_seq. Qed.

(** C5.  For every series with at least 3 rows from the offset onward (rows
    of seven columns, the infectious count positive), the growth rate that
    [get_observable] reports is the ordinary-least-squares slope of the
    logarithm of the infectious count against the day index 0..n-1, that
    is, the slope of the line of least squared error, and the reported
    standard deviation is the standard error of that slope,
    [sqrt((1/(n-2)) * sum(residual^2) / sum((x - mean(x))^2))]. *)
Theorem growth_rate_is_ols_slope (data0 : list (list R)) (day_offset : Z)
    (ninfectious : list R) :
  Forall2 (fun row v => length row = 7%nat ∧ row !! 4%nat = Some v ∧ 0 < v)
          (slice_from data0 day_offset) ninfectious →
  (3 ≤ length (slice_from data0 day_offset))%nat →
  ∃ gradient std_gradient dec_by_rec dec_by_infection,
    get_observable data0 day_offset =
      Ok ((gradient, std_gradient), dec_by_rec, dec_by_infection) ∧
    gradient =
      ols_slope (arange (length ninfectious)) (ln <$> ninfectious) ∧
    (∀ a b,
       squared_error (arange (length ninfectious)) (ln <$> ninfectious)
         gradient
         (ols_intercept (arange (length ninfectious)) (ln <$> ninfectious))
       <= squared_error (arange (length ninfectious)) (ln <$> ninfectious)
            a b) ∧
    std_gradient =
      slope_std_error (arange (length ninfectious)) (ln <$> ninfectious).
Proof.
  intros Hrows Hn.
  assert (Hlen : length (slice_from data0 day_offset) = length ninfectious)
    by (eapply Forall2_length, Hrows).
  destruct (columns_of_rows7 (slice_from data0 day_offset) ninfectious)
    as (Hinf & [nrec Hrec] & [ndec Hdec]).
  { eapply Forall2_impl; [exact Hrows|]. cbv beta. tauto. }
  set (x := arange (length ninfectious)).
  set (logy := ln <$> ninfectious).
  assert (Hx : x ≠ []).
  { intros E. apply (f_equal length) in E. unfold x in E.
    rewrite length_arange in E. cbn in E. lia. }
  assert (Hxy : length x = length logy).
  { unfold x, logy. by rewrite length_arange, length_fmap. }
  assert (Hdev : 0 < rsum ((fun xi => (xi - rmean x) ^ 2) <$> x)).
  { apply arange_deviation_pos. lia. }
  exists (ols_slope x logy), (slope_std_error x logy).
  do 2 eexists. split; [|split; [reflexivity|split; [|reflexivity]]].
  - unfold get_observable. cbv zeta.
    rewrite Hinf, bind_Ok, Hrec, bind_Ok, Hdec, bind_Ok, Hlen.
    fold x logy. rewrite (polyfit1_ols x logy Hx Hxy Hdev), bind_Ok.
    rewrite decide_False by (unfold x; rewrite length_arange; lia).
    rewrite residuals_squared_error. unfold slope_std_error.
    rewrite minus_IZR, <- INR_IZR_INZ. reflexivity.
  - intros a b. by apply ols_minimises.
Qed.

Lemma growth_rate_is_ols_slope_witness :
  ∃ gradient std_gradient dec_by_rec dec_by_infection,
    get_observable data_7 2 =
      Ok ((gradient, std_gradient), dec_by_rec, dec_by_infection) ∧
    gradient =
      ols_slope (arange 5) (ln <$> [400; 800; 1600; 3200; 6400]) ∧
    (∀ a b,
       squared_error (arange 5) (ln <$> [400; 800; 1600; 3200; 6400])
         gradient
         (ols_intercept (arange 5) (ln <$> [400; 800; 1600; 3200; 6400]))
       <= squared_error (arange 5) (ln <$> [400; 800; 1600; 3200; 6400])
            a b) ∧
    std_gradient =
      slope_std_error (arange 5) (ln <$> [400; 800; 1600; 3200; 6400]).
Proof.
  apply (growth_rate_is_ols_slope data_7 2 [400; 800; 1600; 3200; 6400]).
  - cbn [data_7 slice_from length fmap list_fmap seq Z.of_nat Z.ltb Z.compare
         Z.min Z.max Z.to_nat drop Pos.of_succ_nat Pos.succ Pos.compare
         Pos.compare_cont Pos.to_nat Pos.iter_op Init.Nat.add].
    repeat constructor; cbn; try lra; f_equal; lra.
  - change (3 ≤ 5)%nat. lia.
Defined.
